(** * PageRank: transition model, sampling estimator and iterative estimator

    A shallow embedding of [pagerank.py].  The three functions
    [transition_model], [sample_pagerank] and [iterate_pagerank] are written
    once, over an interface [Number] for the arithmetic they perform, and the
    interface is instantiated twice:

    - at [float], the kernel's IEEE 754 binary64 numbers, which is the
      arithmetic a Python [float] has: evaluating the embedding there gives
      the values the program computes;
    - at [Q], the exact rationals, for the statements that hold of every
      graph and are facts of exact arithmetic.

    Python's [dict] keeps insertion order and the sampler walks a
    distribution in that order, so a [dict] is an association list with
    unique keys; a [set] is the list of its elements in iteration order.
    Exceptions are values of [result]; the process-wide random generator is
    an explicit [generator] threaded through the sampler. *)

From Stdlib Require Import List String Bool Arith ZArith QArith Qabs Lia Lqa.
From Stdlib Require Import PrimFloat Uint63 FloatOps SpecFloat.
Import ListNotations.
Local Open Scope string_scope.
Local Open Scope nat_scope.
Local Open Scope list_scope.

(** ** Exceptions *)

Inductive exn : Type :=
| KeyError (key : string)
| IndexError
| ZeroDivisionError.

Inductive result (A : Type) : Type :=
| Ok (a : A)
| Raise (e : exn).

Arguments Ok {A} a.
Arguments Raise {A} e.

Definition bind {A B : Type} (c : result A) (k : A -> result B) : result B :=
  match c with
  | Ok a => k a
  | Raise e => Raise e
  end.

Notation "x <- c ;; k" := (bind c (fun x => k))
  (at level 61, c at next level, right associativity).
Notation "' p <- c ;; k" := (bind c (fun p => k))
  (at level 61, p pattern, c at next level, right associativity).

(** ** Numbers *)

(** The operations the program applies to numbers.  [of_nat] is the
    promotion of a non-negative [int] to a [float]; [div] is the quotient by
    a non-zero divisor (the check for zero is [truediv]'s); [tolerance] is
    the literal [0.001]. *)
Class Number (R : Type) : Type := {
  of_nat : nat -> R;
  add : R -> R -> R;
  sub : R -> R -> R;
  mul : R -> R -> R;
  div : R -> R -> R;
  absolute : R -> R;
  leb : R -> R -> bool;
  ltb : R -> R -> bool;
  tolerance : R
}.

(** Exact rationals. *)
#[export] Instance Q_Number : Number Q := {
  of_nat n := inject_Z (Z.of_nat n);
  add := Qplus;
  sub := Qminus;
  mul := Qmult;
  div := Qdiv;
  absolute := Qabs;
  leb := Qle_bool;
  ltb x y := negb (Qle_bool y x);
  tolerance := (1 # 1000)%Q
}.

(** Binary64: an [int] below [2^53] is promoted without rounding, and every
    operation rounds to nearest, as Python's does. *)
#[export, warnings="-inexact-float"] Instance float_Number : Number float := {
  of_nat n := PrimFloat.of_uint63 (Uint63.of_Z (Z.of_nat n));
  add := PrimFloat.add;
  sub := PrimFloat.sub;
  mul := PrimFloat.mul;
  div := PrimFloat.div;
  absolute := PrimFloat.abs;
  leb := PrimFloat.leb;
  ltb := PrimFloat.ltb;
  tolerance := 0.001%float
}.

(** The exact rational value of a finite binary64 number. *)
Definition float_to_Q (x : float) : Q :=
  match Prim2SF x with
  | S754_finite s m e =>
      let v := (inject_Z (Z.pos m) * Qpower 2 e)%Q in
      if s then Qopp v else v
  | _ => 0%Q
  end.

(** ** Dictionaries and sets *)

Definition dict (V : Type) : Type := list (string * V).
Definition pyset : Type := list string.

Definition keys {V : Type} (d : dict V) : list string := map fst d.
Definition values {V : Type} (d : dict V) : list V := map snd d.

(** [d[k]] *)
Fixpoint dict_get {V : Type} (d : dict V) (k : string) : result V :=
  match d with
  | [] => Raise (KeyError k)
  | (k', v) :: rest => if String.eqb k k' then Ok v else dict_get rest k
  end.

(** [d[k] = v]: an existing key keeps its place, a new one goes last. *)
Fixpoint dict_set {V : Type} (d : dict V) (k : string) (v : V) : dict V :=
  match d with
  | [] => [(k, v)]
  | (k', v') :: rest =>
      if String.eqb k k' then (k', v) :: rest
      else (k', v') :: dict_set rest k v
  end.

(** [k in s] *)
Definition set_mem (k : string) (s : pyset) : bool :=
  existsb (String.eqb k) s.

(** ** The random generator *)

(** The state of the [random] module: what its [k]-th call will produce,
    as the value of [random.uniform(0, 1)] or as the number from which
    [random.choice] takes its index, and how many calls have been made. *)
Record generator (R : Type) : Type := {
  uniform_draws : nat -> R;
  index_draws : nat -> nat;
  position : nat
}.

Arguments uniform_draws {R} g _.
Arguments index_draws {R} g _.
Arguments position {R} g.

Definition advance {R : Type} (g : generator R) : generator R :=
  {| uniform_draws := uniform_draws g;
     index_draws := index_draws g;
     position := S (position g) |}.

(** [random.uniform(0, 1)] *)
Definition random_uniform {R : Type} (g : generator R) : R * generator R :=
  (uniform_draws g (position g), advance g).

(** [random.choice(seq)] *)
Definition random_choice {R A : Type} (seq : list A) (g : generator R)
  : result (A * generator R) :=
  match nth_error seq (index_draws g (position g) mod List.length seq) with
  | Some a => Ok (a, advance g)
  | None => Raise IndexError
  end.

Section Model.

Context {R : Type} `{Number R}.

(** [x / n] for an [int] divisor [n]. *)
Definition truediv (x : R) (n : nat) : result R :=
  match n with
  | O => Raise ZeroDivisionError
  | S _ => Ok (div x (of_nat n))
  end.

(** ** transition_model *)

Definition transition_model (corpus : dict pyset) (page : string)
    (damping_factor : R) : result (dict R) :=
  links <- dict_get corpus page ;;
  let num_of_links := List.length links in
  let num_of_pages := List.length corpus in
  probability_per_link <-
    (if 0 <? num_of_links then truediv damping_factor num_of_links
     else Ok (of_nat 0)) ;;
  remain <- truediv (sub (of_nat 1) damping_factor) num_of_pages ;;
  let probability := dict_set [] page remain in
  Ok (fold_left
        (fun probability key =>
           dict_set probability key (add probability_per_link remain))
        links probability).

(** ** sample_pagerank *)

Record walk : Type := {
  page_count : dict nat;
  current_page : string;
  random_cnt : nat;
  choice_cnt : nat;
  gen : generator R
}.

(** The loop over [prob_distribution.items()] with its [break]: the page
    where the running sum reaches the draw, or [current_page] unchanged when
    the loop runs to its end. *)
Fixpoint choose_link (items : dict R) (choose_link_from_page : R)
    (running_prob : R) (current_page : string) : string :=
  match items with
  | [] => current_page
  | (page, probability) :: rest =>
      let running_prob := add running_prob probability in
      if leb choose_link_from_page running_prob then page
      else choose_link rest choose_link_from_page running_prob current_page
  end.

(** One turn of the loop [for _ in range(n)]. *)
Definition sample_step (corpus : dict pyset) (damping_factor : R)
    (pages : list string) (w : walk) : result walk :=
  count <- dict_get (page_count w) (current_page w) ;;
  let page_count' := dict_set (page_count w) (current_page w) (count + 1) in
  let (choice, g1) := random_uniform (gen w) in
  if leb choice damping_factor then
    prob_distribution <-
      transition_model corpus (current_page w) damping_factor ;;
    let (choose_link_from_page, g2) := random_uniform g1 in
    Ok {| page_count := page_count';
          current_page :=
            choose_link prob_distribution choose_link_from_page (of_nat 0)
              (current_page w);
          random_cnt := random_cnt w;
          choice_cnt := choice_cnt w + 1;
          gen := g2 |}
  else
    '(page, g2) <- random_choice pages g1 ;;
    Ok {| page_count := page_count';
          current_page := page;
          random_cnt := random_cnt w + 1;
          choice_cnt := choice_cnt w;
          gen := g2 |}.

Fixpoint sample_loop (corpus : dict pyset) (damping_factor : R)
    (pages : list string) (n : nat) (w : walk) : result walk :=
  match n with
  | O => Ok w
  | S n' =>
      w' <- sample_step corpus damping_factor pages w ;;
      sample_loop corpus damping_factor pages n' w'
  end.

(** The loop [for key, value in page_count.items()]. *)
Fixpoint frequencies (items : dict nat) (n : nat)
    (probability_distribution : dict R) : result (dict R) :=
  match items with
  | [] => Ok probability_distribution
  | (key, value) :: rest =>
      q <- truediv (of_nat value) n ;;
      frequencies rest n (dict_set probability_distribution key q)
  end.

Definition sample_pagerank (corpus : dict pyset) (damping_factor : R)
    (n : nat) (g : generator R) : result (dict R) :=
  let page_count0 :=
    fold_left (fun page_count key => dict_set page_count key 0)
      (keys corpus) [] in
  let pages := keys corpus in
  '(current_page, g) <- random_choice pages g ;;
  w <- sample_loop corpus damping_factor pages n
         {| page_count := page_count0;
            current_page := current_page;
            random_cnt := 0;
            choice_cnt := 0;
            gen := g |} ;;
  frequencies (page_count w) n [].

(** ** iterate_pagerank *)

(** The inner loop [for key in corpus] that accumulates
    [running_probability] for [cur_page]. *)
Fixpoint inbound (corpus : dict pyset) (damping_factor : R) (N : nat)
    (probability_page : dict R) (cur_page : string) (ks : list string)
    (running_probability : R) : result R :=
  match ks with
  | [] => Ok running_probability
  | key :: rest =>
      if String.eqb key cur_page then
        inbound corpus damping_factor N probability_page cur_page rest
          running_probability
      else
        page_links_set <- dict_get corpus key ;;
        if negb (set_mem cur_page page_links_set) then
          inbound corpus damping_factor N probability_page cur_page rest
            running_probability
        else if 0 <? List.length page_links_set then
          p <- dict_get probability_page key ;;
          q <- truediv p (List.length page_links_set) ;;
          inbound corpus damping_factor N probability_page cur_page rest
            (add running_probability (mul damping_factor q))
        else
          p <- dict_get probability_page key ;;
          q <- truediv p N ;;
          inbound corpus damping_factor N probability_page cur_page rest
            (add running_probability (mul damping_factor q))
  end.

(** The value stored in [new_prob_page[cur_page]]. *)
Definition new_rank (corpus : dict pyset) (damping_factor : R) (N : nat)
    (probability_page : dict R) (cur_page : string) : result R :=
  part1 <- truediv (sub (of_nat 1) damping_factor) N ;;
  running_probability <-
    inbound corpus damping_factor N probability_page cur_page (keys corpus)
      (of_nat 0) ;;
  Ok (add part1 running_probability).

(** How one pass of the outer loop [for key in corpus] ends: at the
    [return probability_page] inside it, or at its end with
    [new_prob_page] filled. *)
Inductive pass : Type :=
| Returned (probability_page : dict R)
| Completed (new_prob_page : dict R).

Fixpoint update (corpus : dict pyset) (damping_factor : R) (N : nat)
    (probability_page : dict R) (ks : list string) (new_prob_page : dict R)
  : result pass :=
  match ks with
  | [] => Ok (Completed new_prob_page)
  | cur_page :: rest =>
      new_value <- new_rank corpus damping_factor N probability_page cur_page ;;
      prev_prob <- dict_get probability_page cur_page ;;
      let new_prob_page := dict_set new_prob_page cur_page new_value in
      let dx := absolute (sub new_value prev_prob) in
      if ltb dx tolerance then Ok (Returned probability_page)
      else update corpus damping_factor N probability_page rest new_prob_page
  end.

(** The loop [while cnt < 100], with [remaining = 100 - cnt].  Leaving the
    loop reaches the end of the function, whose value is then [None]. *)
Fixpoint iterate_loop (corpus : dict pyset) (damping_factor : R) (N : nat)
    (remaining : nat) (probability_page : dict R) : result (option (dict R)) :=
  match remaining with
  | O => Ok None
  | S remaining' =>
      p <- update corpus damping_factor N probability_page (keys corpus) [] ;;
      match p with
      | Returned probability_page => Ok (Some probability_page)
      | Completed new_prob_page =>
          iterate_loop corpus damping_factor N remaining' new_prob_page
      end
  end.

(** The loop [for key in corpus: probability_page[key] = 1/N]. *)
Fixpoint initial_ranks (ks : list string) (N : nat)
    (probability_page : dict R) : result (dict R) :=
  match ks with
  | [] => Ok probability_page
  | key :: rest =>
      q <- truediv (of_nat 1) N ;;
      initial_ranks rest N (dict_set probability_page key q)
  end.

Definition iterate_pagerank (corpus : dict pyset) (damping_factor : R)
  : result (option (dict R)) :=
  let N := List.length corpus in
  probability_page <- initial_ranks (keys corpus) N [] ;;
  iterate_loop corpus damping_factor N 100 probability_page.

End Model.

Arguments walk R : clear implicits.
Arguments pass R : clear implicits.

(** ** Notions used in the statements *)

(** Every link of every page is a page of the corpus. *)
Definition closed (corpus : dict pyset) : Prop :=
  forall page links link,
    dict_get corpus page = Ok links -> In link links -> In link (keys corpus).

(** No name occurs twice in [l]. *)
Fixpoint distinct (l : list string) : bool :=
  match l with
  | [] => true
  | x :: rest => negb (set_mem x rest) && distinct rest
  end.

(** [closed], as a check that computes. *)
Definition links_inside (corpus : dict pyset) : bool :=
  forallb (fun entry => forallb (fun link => set_mem link (keys corpus))
                          (snd entry))
    corpus.

(** The dictionaries [crawl] builds for a directory with a page in it: at
    least one page, no page twice, and every link the name of a page. *)
Definition graph (corpus : dict pyset) : bool :=
  (0 <? List.length corpus) && distinct (keys corpus) && links_inside corpus.

Section Notions.

Context {R : Type} `{Number R}.

(** The sum of a list of numbers, left to right from [0]. *)
Definition total (l : list R) : R := fold_left add l (of_nat 0).

(** What the walk maintains after [k] turns of the loop. *)
Definition walk_ok (corpus : dict pyset) (k : nat) (w : walk R) : Prop :=
  keys (page_count w) = keys corpus
  /\ In (current_page w) (keys corpus)
  /\ list_sum (values (page_count w)) = k.

(** The value [value/n] stored for a page counted [value] times. *)
Definition frequency (n : nat) (entry : string * nat) : string * R :=
  (fst entry, div (of_nat (snd entry)) (of_nat n)).

(** Following the spec's words, not the code: inverse-CDF selection over a
    distribution, "the node whose cumulative probability mass first exceeds"
    the draw [u]; [None] when no node's does. *)
Fixpoint inverse_cdf (items : dict R) (u cumulative : R) : option string :=
  match items with
  | [] => None
  | (node, probability) :: rest =>
      let cumulative := add cumulative probability in
      if ltb u cumulative then Some node
      else inverse_cdf rest u cumulative
  end.

(** The running sum of the first [i + 1] values, from [start]. *)
Definition running_sum (start : R) (items : dict R) (i : nat) : R :=
  fold_left add (firstn (S i) (values items)) start.

(** [next] is the first page of [items] at which the running sum reaches
    the draw, or [cur] when none does. *)
Definition first_reached (start : R) (items : dict R) (u : R)
    (cur next : string) : Prop :=
  (exists i,
      nth_error (keys items) i = Some next
      /\ leb u (running_sum start items i) = true
      /\ forall j, j < i -> leb u (running_sum start items j) = false)
  \/ (next = cur
      /\ forall j, j < List.length items ->
                   leb u (running_sum start items j) = false).

(** The test before the [break] fails at every entry of [items]: the draw
    is above every running sum the loop computes. *)
Definition never_reached (items : dict R) (u : R) : bool :=
  forallb (fun j => negb (leb u (running_sum (of_nat 0) items j)))
    (seq 0 (List.length items)).

(** The walk [sample_pagerank] starts with, at [page]: no visit counted. *)
Definition initial_walk (corpus : dict pyset) (page : string)
    (g : generator R) : walk R :=
  {| page_count :=
       fold_left (fun page_count key => dict_set page_count key 0)
         (keys corpus) [];
     current_page := page;
     random_cnt := 0;
     choice_cnt := 0;
     gen := g |}.

(** The pages the walk is at when its next [n] turns begin, in order: the
    page of [w], then the pages the turns move to, but for the last. *)
Fixpoint visited (corpus : dict pyset) (damping_factor : R)
    (pages : list string) (n : nat) (w : walk R) : list string :=
  match n with
  | O => []
  | S n' =>
      current_page w
        :: match sample_step corpus damping_factor pages w with
           | Ok w' => visited corpus damping_factor pages n' w'
           | Raise _ => []
           end
  end.

(** Every page of [pages] with the number of its occurrences in [visits]
    over [n]. *)
Definition visit_frequencies (visits : list string) (n : nat)
    (pages : list string) : dict R :=
  map (fun key =>
         (key, div (of_nat (count_occ string_dec visits key)) (of_nat n)))
    pages.

End Notions.

(** ** The graphs and generators used as concrete inputs *)

Local Open Scope float_scope.

(** [{A: {}, B: {A}}]: [A] is dangling. *)
Definition dangling_corpus : dict pyset := [("A", []); ("B", ["A"])].

(** [{A: {B}, B: {}, C: {}, D: {}}] *)
Definition one_link_corpus : dict pyset :=
  [("A", ["B"]); ("B", []); ("C", []); ("D", [])].

(** [{A: {B}, B: {A}, C: {B}, D: {B}}] *)
Definition hub_corpus : dict pyset :=
  [("A", ["B"]); ("B", ["A"]); ("C", ["B"]); ("D", ["B"])].

(** [{A: {B}, B: {}, C: {B}, D: {B}}]: [B] is dangling. *)
Definition sink_corpus : dict pyset :=
  [("A", ["B"]); ("B", []); ("C", ["B"]); ("D", ["B"])].

(** [{H: {L1, L2}, L1: {H}, L2: {H}}] *)
Definition star_corpus : dict pyset :=
  [("H", ["L1"; "L2"]); ("L1", ["H"]); ("L2", ["H"])].

(** [{A: {}}] *)
Definition single_corpus : dict pyset := [("A", [])].

(** [{A: {B}, B: {A}, C: {A}, D: {A}}] *)
Definition fan_corpus : dict pyset :=
  [("A", ["B"]); ("B", ["A"]); ("C", ["A"]); ("D", ["A"])].

(** [{A: {}, B: {}, C: {}}] *)
Definition isolated_corpus : dict pyset := [("A", []); ("B", []); ("C", [])].

(** The distribution with every page of [hub_corpus] at [1/4]. *)
Definition quarter_ranks : dict float :=
  [("A", 0.25); ("B", 0.25); ("C", 0.25); ("D", 0.25)].

(** A generator whose every uniform draw is [u] and whose index draw at
    call [k] is [pick k]. *)
Definition constant_generator {R : Type} (u : R) (pick : nat -> nat)
  : generator R :=
  {| uniform_draws := fun _ => u; index_draws := pick; position := 0 |}.

(** A walk at page [A] of [{A: {B}, B: {A}, C: {A}, D: {A}}] whose
    generator draws [0.75] and picks index [2]. *)
Definition restart_walk : walk float :=
  {| page_count := [("A", 0%nat); ("B", 0%nat); ("C", 0%nat); ("D", 0%nat)];
     current_page := "A";
     random_cnt := 0; choice_cnt := 0;
     gen := constant_generator 0.75 (fun _ => 2%nat) |}.

Local Close Scope float_scope.

(** Index draws that make a walk of uniform restarts over three pages
    visit the first page fifteen times, the second six times, then the
    third: the restart of turn [t] is call [2 t] of the generator. *)
Definition uneven_visits (k : nat) : nat :=
  if k <? 30 then 0 else if k <? 42 then 1 else 2.

(** A generator whose uniform draws are [coin] at the even calls and [u] at
    the odd ones. *)
Definition alternating_generator {R : Type} (coin u : R) : generator R :=
  {| uniform_draws := fun k => if Nat.even k then coin else u;
     index_draws := fun _ => 0;
     position := 0 |}.

(** A walk at page [A] of [{A: {B}, B: {A}, C: {A}, D: {A}}] that draws
    [1/4], then [7/8]. *)
Definition linked_walk : walk Q :=
  {| page_count := [("A", 0); ("B", 0); ("C", 0); ("D", 0)];
     current_page := "A";
     random_cnt := 0; choice_cnt := 0;
     gen := alternating_generator (1 # 4)%Q (7 # 8)%Q |}.

(** A walk at page [A] of [{A: {B}, B: {A}, C: {A}, D: {A}}] that draws
    [0.25], then [0.875], in binary64. *)
Definition linked_float_walk : walk float :=
  {| page_count := [("A", 0); ("B", 0); ("C", 0); ("D", 0)];
     current_page := "A";
     random_cnt := 0; choice_cnt := 0;
     gen := alternating_generator 0.25%float 0.875%float |}.

(** [{A: {B, C}, B: {}, C: {}, D: {}, E: {}}] *)
Definition five_corpus : dict pyset :=
  [("A", ["B"; "C"]); ("B", []); ("C", []); ("D", []); ("E", [])].

(** A walk at page [A] of [five_corpus] that draws [0.5], then
    [0.9400000000000001]. *)
#[warnings="-inexact-float"] Definition rounding_walk : walk float :=
  {| page_count := [("A", 0); ("B", 0); ("C", 0); ("D", 0); ("E", 0)];
     current_page := "A";
     random_cnt := 0; choice_cnt := 0;
     gen := alternating_generator 0.5%float 0.9400000000000001%float |}.

(** A walk at page [A] of [{A: {}, B: {A}}] that draws [0.5], then [0.75],
    in binary64. *)
Definition dangling_float_walk : walk float :=
  {| page_count := [("A", 0); ("B", 0)];
     current_page := "A";
     random_cnt := 0; choice_cnt := 0;
     gen := alternating_generator 0.5%float 0.75%float |}.

(** ** crawl *)

(** [s.endswith(suffix)] *)
Definition endswith (s suffix : string) : bool :=
  String.eqb
    (substring (String.length s - String.length suffix)
       (String.length suffix) s)
    suffix.

(** [set(l)]: the elements of [l], each once. *)
Definition set_of (l : list string) : pyset := nodup string_dec l.

(** [s - {x}] *)
Definition set_without (s : pyset) (x : string) : pyset :=
  filter (fun y => negb (String.eqb y x)) s.

Section Crawl.

(** What [re.findall] returns for the pattern of [crawl] and the contents
    of a file.  The directory is given by its listing: the names
    [os.listdir] returns, in that order, each with what reading the file
    gives. *)
Variable findall : string -> list string.

(** The loop [for filename in os.listdir(directory)]. *)
Fixpoint read_pages (listing : dict string) (pages : dict pyset)
  : dict pyset :=
  match listing with
  | [] => pages
  | (filename, contents) :: rest =>
      if negb (endswith filename ".html") then read_pages rest pages
      else
        let links := findall contents in
        read_pages rest
          (dict_set pages filename (set_without (set_of links) filename))
  end.

(** The loop [for filename in pages], over the keys [ks] still to visit. *)
Fixpoint keep_corpus_links (ks : list string) (pages : dict pyset)
  : result (dict pyset) :=
  match ks with
  | [] => Ok pages
  | filename :: rest =>
      links <- dict_get pages filename ;;
      keep_corpus_links rest
        (dict_set pages filename
           (filter (fun link => set_mem link (keys pages)) links))
  end.

Definition crawl (listing : dict string) : result (dict pyset) :=
  let pages := read_pages listing [] in
  keep_corpus_links (keys pages) pages.

(** The entry the first loop stores for a file: its links, each once,
    without the file itself. *)
Definition own_links (filename contents : string) : pyset :=
  set_without (set_of (findall contents)) filename.

End Crawl.

(** What the second loop leaves of an entry of [pages]. *)
Definition kept (known : list string) (entry : string * pyset)
  : string * pyset :=
  (fst entry, filter (fun link => set_mem link known) (snd entry)).

(** A directory of three files, [1.html] linking to [2.html], to itself and
    to a page that is not there, [2.html] linking to [1.html] twice, and a
    text file; the contents are written as the list of their links. *)
Definition example_listing : dict string :=
  [("1.html", "2.html 1.html 3.html"); ("notes.txt", "1.html");
   ("2.html", "1.html 1.html")].

(** The links of the files of [example_listing]. *)
Definition example_findall (contents : string) : list string :=
  if String.eqb contents "2.html 1.html 3.html"
  then ["2.html"; "1.html"; "3.html"]
  else if String.eqb contents "1.html 1.html" then ["1.html"; "1.html"]
  else if String.eqb contents "1.html" then ["1.html"]
  else [].

(** ** Notions for the mass of a pass, in exact arithmetic *)

(** The sum of [f x] over the elements [x] of [l]. *)
Fixpoint sum_over {A : Type} (f : A -> Q) (l : list A) : Q :=
  match l with
  | [] => 0%Q
  | x :: rest => (f x + sum_over f rest)%Q
  end.

(** The rank of [key] in a distribution, [0] for a name that is no key. *)
Definition rank_of (probability_page : dict Q) (key : string) : Q :=
  match dict_get probability_page key with
  | Ok p => p
  | Raise _ => 0%Q
  end.

(** What the page [key] adds to the running probability of [cur_page] in
    the inner loop of a pass: [d * PR(key)/|L(key)|] when [key] is another
    page that links to [cur_page], nothing otherwise. *)
Definition share (corpus : dict pyset) (damping_factor : Q)
    (probability_page : dict Q) (cur_page key : string) : Q :=
  if String.eqb key cur_page then 0%Q
  else
    match dict_get corpus key, dict_get probability_page key with
    | Ok links, Ok p =>
        if set_mem cur_page links
        then (damping_factor
              * (p / inject_Z (Z.of_nat (List.length links))))%Q
        else 0%Q
    | _, _ => 0%Q
    end.

(** What the loop keeps from pass to pass: the pages of the corpus as
    keys, ranks of at least [(1 - d)/N], and a mass of at most 1. *)
Definition settled (corpus : dict pyset) (damping_factor : Q)
    (probability_page : dict Q) : Prop :=
  keys probability_page = keys corpus
  /\ Forall (fun v => (1 - damping_factor)
                      / inject_Z (Z.of_nat (List.length corpus)) <= v)%Q
       (values probability_page)
  /\ (sum_over (fun v => v) (values probability_page) <= 1)%Q.

(** ** Facts about dictionaries *)

Section DictFacts.

Context {V : Type}.

Lemma dict_get_in (d : dict V) (k : string) :
  In k (keys d) -> exists v, dict_get d k = Ok v.
Proof.
  induction d as [|[k' v'] d IH]; simpl; [tauto|].
  intros Hin. destruct (String.eqb_spec k k') as [->|Hne].
  - now exists v'.
  - apply IH. destruct Hin as [Heq|Hin]; [congruence|exact Hin].
Qed.

Lemma keys_dict_set_present (d : dict V) (k : string) (v : V) :
  In k (keys d) -> keys (dict_set d k v) = keys d.
Proof.
  induction d as [|[k' v'] d IH]; simpl; [tauto|].
  intros Hin. destruct (String.eqb_spec k k') as [->|Hne]; [reflexivity|].
  simpl. f_equal. apply IH. destruct Hin as [Heq|Hin]; [congruence|exact Hin].
Qed.

Lemma dict_set_absent (d : dict V) (k : string) (v : V) :
  ~ In k (keys d) -> dict_set d k v = d ++ [(k, v)].
Proof.
  induction d as [|[k' v'] d IH]; simpl; [reflexivity|].
  intros Hnotin. destruct (String.eqb_spec k k') as [->|Hne]; [tauto|].
  f_equal. apply IH. tauto.
Qed.

Lemma keys_dict_set_incl (d : dict V) (k k0 : string) (v : V) :
  In k0 (keys (dict_set d k v)) -> k0 = k \/ In k0 (keys d).
Proof.
  induction d as [|[k' v'] d IH]; simpl.
  - intros [Heq|[]]. now left.
  - destruct (String.eqb_spec k k') as [->|Hne]; simpl.
    + tauto.
    + intros [Heq|Hin]; [tauto|]. destruct (IH Hin); tauto.
Qed.

Lemma values_dict_set_forall (P : V -> Prop) (d : dict V) (k : string) (v : V) :
  Forall P (values d) -> P v -> Forall P (values (dict_set d k v)).
Proof.
  induction d as [|[k' v'] d IH]; simpl; intros Hall Hv.
  - now constructor.
  - inversion Hall as [|? ? Hv' Hall']; subst.
    destruct (String.eqb k k'); simpl; constructor; auto.
Qed.

End DictFacts.

Lemma count_dict_set_succ (d : dict nat) (k : string) (c : nat) :
  dict_get d k = Ok c ->
  list_sum (values (dict_set d k (c + 1))) = S (list_sum (values d)).
Proof.
  induction d as [|[k' c'] d IH]; simpl; [discriminate|].
  destruct (String.eqb_spec k k') as [->|Hne]; simpl.
  - intros [= ->]. lia.
  - intros Hget. rewrite (IH Hget). lia.
Qed.

Lemma assign_fresh {V : Type} (f : string -> V) (ks : list string)
    (acc : dict V) :
  NoDup (keys acc ++ ks) ->
  fold_left (fun d key => dict_set d key (f key)) ks acc
  = acc ++ map (fun key => (key, f key)) ks.
Proof.
  revert acc. induction ks as [|k ks IH]; intros acc Hnd; simpl.
  - now rewrite app_nil_r.
  - rewrite dict_set_absent.
    + rewrite IH.
      * now rewrite <- app_assoc.
      * unfold keys in *. rewrite map_app, <- app_assoc. exact Hnd.
    + apply NoDup_remove_2 in Hnd. intros Hin. apply Hnd.
      apply in_or_app. now left.
Qed.

Lemma random_choice_in {R A : Type} (seq : list A) (g : generator R) :
  seq <> [] ->
  exists a, random_choice seq g = Ok (a, advance g) /\ In a seq.
Proof.
  intros Hne. unfold random_choice.
  destruct (nth_error seq (index_draws g (position g) mod List.length seq))
    as [a|] eqn:Hnth.
  - exists a. split; [reflexivity|]. eapply nth_error_In; eassumption.
  - apply nth_error_None in Hnth.
    assert (List.length seq <> 0) by (destruct seq; simpl; congruence).
    pose proof (Nat.mod_upper_bound (index_draws g (position g))
                  (List.length seq) ltac:(assumption)).
    lia.
Qed.

(** ** Facts about graphs *)

Lemma set_mem_in (k : string) (s : pyset) : set_mem k s = true <-> In k s.
Proof.
  unfold set_mem. rewrite existsb_exists. split.
  - intros (x & Hx & Heq). apply String.eqb_eq in Heq. now subst.
  - intros Hin. exists k. split; [exact Hin|apply String.eqb_refl].
Qed.

Lemma distinct_NoDup (l : list string) : distinct l = true -> NoDup l.
Proof.
  induction l as [|x l IH]; simpl; intros Hd; constructor.
  - apply andb_true_iff in Hd. destruct Hd as [Hx _].
    intros Hin. apply set_mem_in in Hin. rewrite Hin in Hx. discriminate.
  - apply IH. apply andb_true_iff in Hd. tauto.
Qed.

Lemma dict_get_entry {V : Type} (d : dict V) (k : string) (v : V) :
  dict_get d k = Ok v -> In (k, v) d.
Proof.
  induction d as [|[k' v'] d IH]; simpl; [discriminate|].
  destruct (String.eqb_spec k k') as [->|Hne].
  - intros [= ->]. now left.
  - intros Hget. right. now apply IH.
Qed.

Lemma links_inside_closed (corpus : dict pyset) :
  links_inside corpus = true -> closed corpus.
Proof.
  unfold links_inside, closed. rewrite forallb_forall.
  intros Hall page links link Hget Hin.
  specialize (Hall _ (dict_get_entry _ _ _ Hget)). simpl in Hall.
  rewrite forallb_forall in Hall. apply set_mem_in. now apply Hall.
Qed.

Lemma graph_facts (corpus : dict pyset) :
  graph corpus = true ->
  corpus <> [] /\ NoDup (keys corpus) /\ closed corpus.
Proof.
  unfold graph. rewrite !andb_true_iff. intros [[Hlen Hd] Hl].
  repeat split.
  - destruct corpus; [discriminate|congruence].
  - now apply distinct_NoDup.
  - now apply links_inside_closed.
Qed.

(** ** Facts about the sampler, in any arithmetic *)

Section SamplerFacts.

Context {R : Type} `{Number R}.

Lemma assign_links_keys (v : R) (links : pyset) (probability : dict R)
    (k : string) :
  In k (keys (fold_left (fun probability key => dict_set probability key v)
                links probability)) ->
  In k links \/ In k (keys probability).
Proof.
  revert probability. induction links as [|l links IH]; simpl; intros p Hin.
  - now right.
  - destruct (IH _ Hin) as [Hl|Hp]; [tauto|].
    destruct (keys_dict_set_incl _ _ _ _ Hp); [left; left; congruence|tauto].
Qed.

(** The keys of the returned distribution are the page and its links,
    nothing else. *)
Lemma transition_model_keys (corpus : dict pyset) (page : string)
    (damping_factor : R) (dist : dict R) (k : string) :
  transition_model corpus page damping_factor = Ok dist ->
  In k (keys dist) ->
  exists links, dict_get corpus page = Ok links /\ (k = page \/ In k links).
Proof.
  unfold transition_model.
  destruct (dict_get corpus page) as [links|e]; simpl; [|discriminate].
  destruct (if 0 <? List.length links
            then truediv damping_factor (List.length links)
            else Ok (of_nat 0)) as [ppl|e]; simpl; [|discriminate].
  destruct (truediv (sub (of_nat 1) damping_factor) (List.length corpus))
    as [remain|e]; simpl; [|discriminate].
  intros [= <-] Hin. exists links. split; [reflexivity|].
  destruct (assign_links_keys _ _ _ _ Hin) as [Hl|Hp]; [now right|].
  simpl in Hp. left. destruct Hp as [Hp|[]]. now symmetry.
Qed.

(** [transition_model] succeeds at every page of a non-empty corpus. *)
Lemma transition_model_ok (corpus : dict pyset) (page : string)
    (damping_factor : R) :
  In page (keys corpus) ->
  exists dist, transition_model corpus page damping_factor = Ok dist.
Proof.
  intros Hin. unfold transition_model.
  destruct (dict_get_in corpus page Hin) as [links ->]. simpl.
  assert (Hppl : exists ppl,
             (if 0 <? List.length links
              then truediv damping_factor (List.length links)
              else Ok (of_nat 0)) = Ok ppl).
  { destruct (List.length links); simpl; eauto. }
  destruct Hppl as [ppl ->]. simpl.
  destruct corpus as [|entry corpus]; [destruct Hin|]. simpl. eauto.
Qed.

Lemma choose_link_in (items : dict R) (u running : R) (cur : string) :
  choose_link items u running cur = cur
  \/ In (choose_link items u running cur) (keys items).
Proof.
  revert running. induction items as [|[page p] items IH]; simpl; intros r.
  - now left.
  - destruct (leb u (add r p)); [right; now left|].
    destruct (IH (add r p)); tauto.
Qed.

Lemma sample_step_ok (corpus : dict pyset) (damping_factor : R) (k : nat)
    (w : walk R) :
  closed corpus ->
  walk_ok corpus k w ->
  exists w',
    sample_step corpus damping_factor (keys corpus) w = Ok w'
    /\ walk_ok corpus (S k) w'.
Proof.
  intros Hclosed (Hkeys & Hcur & Hsum). unfold sample_step.
  assert (Hin : In (current_page w) (keys (page_count w)))
    by now rewrite Hkeys.
  destruct (dict_get_in _ _ Hin) as [c Hc]. rewrite Hc. simpl.
  assert (Hcounts : forall w' : walk R,
             page_count w' = dict_set (page_count w) (current_page w) (c + 1) ->
             In (current_page w') (keys corpus) ->
             walk_ok corpus (S k) w').
  { intros w' Hpc Hcur'. unfold walk_ok. rewrite Hpc.
    rewrite keys_dict_set_present by exact Hin.
    rewrite (count_dict_set_succ _ _ _ Hc). auto. }
  destruct (leb (uniform_draws (gen w) (position (gen w))) damping_factor).
  - destruct (transition_model_ok corpus _ damping_factor Hcur) as [dist Hd].
    rewrite Hd. simpl. eexists. split; [reflexivity|].
    apply Hcounts; [reflexivity|]. simpl.
    destruct (choose_link_in dist
                (uniform_draws (gen w) (S (position (gen w)))) (of_nat 0)
                (current_page w)) as [->|Hk]; [exact Hcur|].
    destruct (transition_model_keys _ _ _ _ _ Hd Hk) as (links & Hl & [->|Hk']).
    + exact Hcur.
    + eapply Hclosed; eassumption.
  - assert (Hne : keys corpus <> []) by (destruct (keys corpus); [destruct Hcur|discriminate]).
    destruct (random_choice_in (keys corpus) (advance (gen w)) Hne)
      as (page & Hpage & Hpin).
    rewrite Hpage. simpl. eexists. split; [reflexivity|].
    apply Hcounts; [reflexivity|exact Hpin].
Qed.

Lemma sample_loop_ok (corpus : dict pyset) (damping_factor : R) (n k : nat)
    (w : walk R) :
  closed corpus ->
  walk_ok corpus k w ->
  exists w',
    sample_loop corpus damping_factor (keys corpus) n w = Ok w'
    /\ walk_ok corpus (n + k) w'.
Proof.
  intros Hclosed. revert k w. induction n as [|n IH]; intros k w Hw; simpl.
  - eauto.
  - destruct (sample_step_ok corpus damping_factor k w Hclosed Hw)
      as (w1 & -> & Hw1). simpl.
    destruct (IH (S k) w1 Hw1) as (w' & Hloop & Hw').
    exists w'. split; [exact Hloop|]. now rewrite Nat.add_succ_r in Hw'.
Qed.

Lemma frequencies_map (items : dict nat) (n : nat) (acc : dict R) :
  0 < n ->
  NoDup (keys acc ++ keys items) ->
  frequencies items n acc = Ok (acc ++ map (frequency n) items).
Proof.
  intros Hn. revert acc.
  induction items as [|[key value] items IH]; intros acc Hnd; simpl.
  - now rewrite app_nil_r.
  - destruct n as [|n]; [lia|]. simpl.
    rewrite dict_set_absent.
    + rewrite IH.
      * now rewrite <- app_assoc.
      * unfold keys in *. rewrite map_app, <- app_assoc. exact Hnd.
    + apply NoDup_remove_2 in Hnd. intros Hin. apply Hnd.
      apply in_or_app. now left.
Qed.

(** The sampler returns, for every page, its visit count over [n], and the
    visit counts add up to [n]. *)
Lemma sample_pagerank_counts (corpus : dict pyset) (damping_factor : R)
    (n : nat) (g : generator R) :
  corpus <> [] ->
  NoDup (keys corpus) ->
  closed corpus ->
  0 < n ->
  exists counts : dict nat,
    sample_pagerank corpus damping_factor n g = Ok (map (frequency n) counts)
    /\ keys counts = keys corpus
    /\ list_sum (values counts) = n.
Proof.
  intros Hne Hnd Hclosed Hn. unfold sample_pagerank.
  assert (Hkne : keys corpus <> []) by (destruct corpus; [congruence|discriminate]).
  destruct (random_choice_in (keys corpus) g Hkne) as (page & -> & Hpin).
  simpl. rewrite (assign_fresh (fun _ => 0)) by exact Hnd. simpl.
  set (w0 := {| page_count := map (fun key => (key, 0)) (keys corpus);
                current_page := page; random_cnt := 0; choice_cnt := 0;
                gen := advance g |}).
  assert (Hw0 : walk_ok corpus 0 w0).
  { unfold walk_ok, w0, keys, values. simpl. rewrite !map_map. simpl.
    repeat split; [exact Hpin|].
    clear. induction corpus; simpl; auto. }
  destruct (sample_loop_ok corpus damping_factor n 0 w0 Hclosed Hw0)
    as (w & -> & Hkeys & _ & Hsum). simpl.
  rewrite frequencies_map; simpl; [|exact Hn|now rewrite Hkeys].
  exists (page_count w). rewrite Nat.add_0_r in Hsum. auto.
Qed.

(** A dictionary built over distinct keys, read and updated at a key. *)
Lemma dict_get_map_keys {V : Type} (f : string -> V) (ks : list string)
    (cur : string) :
  In cur ks -> dict_get (map (fun k => (k, f k)) ks) cur = Ok (f cur).
Proof.
  induction ks as [|a ks IH]; simpl; [tauto|].
  intros Hin. destruct (String.eqb_spec cur a) as [->|Hne]; [reflexivity|].
  apply IH. destruct Hin as [Heq|Hin]; [congruence|exact Hin].
Qed.

Lemma dict_set_map_keys {V : Type} (f : string -> V) (ks : list string)
    (cur : string) (v : V) :
  NoDup ks ->
  In cur ks ->
  dict_set (map (fun k => (k, f k)) ks) cur v
  = map (fun k => (k, if String.eqb k cur then v else f k)) ks.
Proof.
  induction ks as [|a ks IH]; intros Hnd Hin; [destruct Hin|].
  inversion Hnd as [|? ? Hfresh Hrest]; subst. cbn [map dict_set].
  destruct (String.eqb_spec cur a) as [->|Hne].
  - rewrite String.eqb_refl. f_equal. apply map_ext_in.
    intros k Hk. destruct (String.eqb_spec k a) as [->|Hka]; [tauto|].
    reflexivity.
  - destruct (String.eqb_spec a cur) as [Heq|_]; [congruence|].
    f_equal. apply IH; [exact Hrest|].
    destruct Hin as [Heq|Hin]; [congruence|exact Hin].
Qed.

(** A turn counts one visit, to the page the walk is at when the turn
    begins. *)
Lemma sample_step_page_count (corpus : dict pyset) (damping_factor : R)
    (pages : list string) (w w' : walk R) :
  sample_step corpus damping_factor pages w = Ok w' ->
  exists c,
    dict_get (page_count w) (current_page w) = Ok c
    /\ page_count w'
       = dict_set (page_count w) (current_page w) (c + 1).
Proof.
  unfold sample_step.
  destruct (dict_get (page_count w) (current_page w)) as [c|e];
    cbn [bind]; [|discriminate].
  cbn [random_uniform]. intros Hstep. exists c. split; [reflexivity|].
  destruct (leb (uniform_draws (gen w) (position (gen w))) damping_factor).
  - destruct (transition_model corpus (current_page w) damping_factor)
      as [dist|e]; cbn [bind] in Hstep; [|discriminate].
    injection Hstep as <-. reflexivity.
  - destruct (random_choice pages (advance (gen w))) as [[page g2]|e];
      cbn [bind] in Hstep; [|discriminate].
    injection Hstep as <-. reflexivity.
Qed.

(** After [n] turns every page's count has grown by the number of turns
    that began at the page. *)
Lemma sample_loop_visits (corpus : dict pyset) (damping_factor : R)
    (n : nat) (w : walk R) (f : string -> nat) :
  closed corpus ->
  NoDup (keys corpus) ->
  In (current_page w) (keys corpus) ->
  page_count w = map (fun k => (k, f k)) (keys corpus) ->
  exists w',
    sample_loop corpus damping_factor (keys corpus) n w = Ok w'
    /\ List.length (visited corpus damping_factor (keys corpus) n w) = n
    /\ page_count w'
       = map (fun k =>
                (k, f k + count_occ string_dec
                            (visited corpus damping_factor (keys corpus) n w)
                            k))
           (keys corpus).
Proof.
  intros Hclosed Hnd. revert w f.
  induction n as [|n IH]; intros w f Hcur Hcount;
    cbn [sample_loop visited].
  - exists w. split; [reflexivity|]. split; [reflexivity|].
    rewrite Hcount. apply map_ext. intros k. cbn [count_occ].
    now rewrite Nat.add_0_r.
  - assert (Hw : walk_ok corpus (list_sum (values (page_count w))) w).
    { repeat split; [|exact Hcur]. rewrite Hcount. unfold keys.
      rewrite map_map. cbn [fst]. apply map_id. }
    destruct (sample_step_ok corpus damping_factor _ w Hclosed Hw)
      as (w1 & Hstep & _ & Hcur1 & _).
    rewrite Hstep. cbn [bind].
    destruct (sample_step_page_count _ _ _ _ _ Hstep) as (c & Hc & Hpc).
    rewrite Hcount in Hc, Hpc.
    rewrite (dict_get_map_keys f (keys corpus) _ Hcur) in Hc.
    injection Hc as <-.
    rewrite (dict_set_map_keys f (keys corpus) _ _ Hnd Hcur) in Hpc.
    destruct (IH w1 _ Hcur1 Hpc) as (w' & Hloop & Hlen & Hfinal).
    exists w'. split; [exact Hloop|]. split; [cbn [List.length]; lia|].
    rewrite Hfinal. apply map_ext. intros k.
    destruct (String.eqb_spec k (current_page w)) as [->|Hne].
    + rewrite count_occ_cons_eq by reflexivity. f_equal. lia.
    + rewrite count_occ_cons_neq by congruence. reflexivity.
Qed.

(** What [sample_pagerank] returns on a graph: for every page, the number
    of turns that began at the page, over [n]. *)
Lemma sample_pagerank_visits (corpus : dict pyset) (damping_factor : R)
    (n : nat) (g : generator R) :
  corpus <> [] ->
  NoDup (keys corpus) ->
  closed corpus ->
  0 < n ->
  exists page,
    In page (keys corpus)
    /\ random_choice (keys corpus) g = Ok (page, advance g)
    /\ List.length
         (visited corpus damping_factor (keys corpus) n
            (initial_walk corpus page (advance g))) = n
    /\ sample_pagerank corpus damping_factor n g
       = Ok (visit_frequencies
               (visited corpus damping_factor (keys corpus) n
                  (initial_walk corpus page (advance g)))
               n (keys corpus))
    /\ list_sum
         (map (count_occ string_dec
                 (visited corpus damping_factor (keys corpus) n
                    (initial_walk corpus page (advance g))))
            (keys corpus)) = n.
Proof.
  intros Hne Hnd Hclosed Hn.
  assert (Hkne : keys corpus <> [])
    by (destruct corpus; [congruence|discriminate]).
  destruct (random_choice_in (keys corpus) g Hkne) as (page & Hchoice & Hpin).
  exists page. split; [exact Hpin|]. split; [exact Hchoice|].
  set (w0 := initial_walk corpus page (advance g)).
  assert (Hzero : page_count w0
                  = map (fun k => (k, (fun _ => 0) k)) (keys corpus)).
  { unfold w0, initial_walk. cbn [page_count].
    now rewrite (assign_fresh (fun _ => 0)) by exact Hnd. }
  destruct (sample_loop_visits corpus damping_factor n w0 (fun _ => 0)
              Hclosed Hnd Hpin Hzero) as (w & Hloop & Hlen & Hfinal).
  cbn [Nat.add] in Hfinal.
  assert (Hw0 : walk_ok corpus 0 w0).
  { unfold walk_ok. rewrite Hzero. repeat split.
    - unfold keys. rewrite map_map. cbn [fst]. apply map_id.
    - exact Hpin.
    - unfold values. rewrite map_map. cbn [snd]. clear.
      induction (keys corpus); simpl; auto. }
  destruct (sample_loop_ok corpus damping_factor n 0 w0 Hclosed Hw0)
    as (w2 & Hloop2 & _ & _ & Hsum).
  rewrite Hloop in Hloop2. injection Hloop2 as <-.
  split; [exact Hlen|]. split.
  - unfold sample_pagerank. rewrite Hchoice. cbn [bind].
    change {| page_count :=
                fold_left (fun page_count key => dict_set page_count key 0)
                  (keys corpus) [];
              current_page := page; random_cnt := 0; choice_cnt := 0;
              gen := advance g |} with w0.
    rewrite Hloop. cbn [bind].
    rewrite frequencies_map; [|exact Hn|].
    + rewrite Hfinal. unfold visit_frequencies. cbn [app].
      rewrite map_map. reflexivity.
    + cbn [keys map app]. rewrite Hfinal. unfold keys. rewrite map_map.
      cbn [fst]. rewrite map_id. exact Hnd.
  - rewrite Hfinal in Hsum. unfold values in Hsum. rewrite map_map in Hsum.
    cbn [snd] in Hsum. rewrite Nat.add_0_r in Hsum. exact Hsum.
Qed.

End SamplerFacts.

(** ** How a turn of the sampler picks the next page *)

Section NextPage.

Context {R : Type} `{Number R}.

Lemma inverse_cdf_in (items : dict R) (u cumulative : R) (node : string) :
  inverse_cdf items u cumulative = Some node -> In node (keys items).
Proof.
  revert cumulative.
  induction items as [|[k p] items IH]; intros c; simpl; [discriminate|].
  destruct (ltb u (add c p)).
  - intros [= ->]. now left.
  - intros Hrest. right. eapply IH. eassumption.
Qed.

Lemma choose_link_first_reached (items : dict R) (u start : R)
    (cur : string) :
  first_reached start items u cur (choose_link items u start cur).
Proof.
  revert start. induction items as [|[page p] items IH]; intros start; simpl.
  - right. split; [reflexivity|]. intros j Hj. inversion Hj.
  - destruct (leb u (add start p)) eqn:Hle.
    + left. exists 0. split; [reflexivity|]. split; [exact Hle|].
      intros j Hj. inversion Hj.
    + destruct (IH (add start p)) as [(i & Hnth & Hi & Hbefore)|[Heq Hall]].
      * left. exists (S i). split; [exact Hnth|]. split; [exact Hi|].
        intros [|j] Hj; [exact Hle|]. apply Hbefore. lia.
      * right. split; [exact Heq|].
        intros [|j] Hj; [exact Hle|]. apply Hall. simpl in Hj. lia.
Qed.

Lemma never_reached_spec (items : dict R) (u : R) :
  never_reached items u = true
  <-> forall j, j < List.length items ->
                leb u (running_sum (of_nat 0) items j) = false.
Proof.
  unfold never_reached. rewrite forallb_forall. split.
  - intros Hall j Hj. apply negb_true_iff. apply Hall.
    apply in_seq. lia.
  - intros Hall j Hj. apply in_seq in Hj. apply negb_true_iff.
    apply Hall. lia.
Qed.

(** When the test before the [break] fails at every entry, the loop runs to
    its end and [current_page] keeps its value. *)
Lemma choose_link_never_reached (items : dict R) (u : R) (cur : string) :
  never_reached items u = true ->
  choose_link items u (of_nat 0) cur = cur.
Proof.
  intros Hnever.
  destruct (choose_link_first_reached items u (of_nat 0) cur)
    as [(i & Hnth & Hi & _)|[Heq _]]; [|exact Heq].
  assert (Hlt : i < List.length items).
  { assert (Hsome : nth_error (keys items) i <> None) by congruence.
    apply nth_error_Some in Hsome. unfold keys in Hsome.
    now rewrite length_map in Hsome. }
  rewrite (proj1 (never_reached_spec items u) Hnever i Hlt) in Hi.
  discriminate Hi.
Qed.

End NextPage.

(** ** What the program does on every input *)

Section GeneralFacts.

Context {R : Type} `{Number R}.

(** At a page with links (none of them the page itself) the distribution
    has exactly the page and its links as entries. *)
Lemma transition_model_entries (corpus : dict pyset) (page : string)
    (damping_factor : R) (l : string) (links : pyset) :
  dict_get corpus page = Ok (l :: links) ->
  NoDup (page :: l :: links) ->
  let remain :=
    div (sub (of_nat 1) damping_factor) (of_nat (List.length corpus)) in
  let per_link :=
    div damping_factor (of_nat (List.length (l :: links))) in
  transition_model corpus page damping_factor
  = Ok ((page, remain)
          :: map (fun key => (key, add per_link remain)) (l :: links)).
Proof.
  intros Hget Hnd remain per_link. unfold transition_model.
  rewrite Hget. cbn [bind List.length Nat.ltb Nat.leb truediv].
  destruct corpus as [|entry corpus]; [discriminate|].
  cbn [bind List.length truediv]. f_equal.
  exact (assign_fresh (fun _ => add per_link remain) (l :: links)
           [(page, remain)] Hnd).
Qed.

(** At a dangling page the distribution has the page as its only entry. *)
Lemma transition_model_dangling (corpus : dict pyset) (page : string)
    (damping_factor : R) :
  dict_get corpus page = Ok [] ->
  transition_model corpus page damping_factor
  = Ok [(page, div (sub (of_nat 1) damping_factor)
                 (of_nat (List.length corpus)))].
Proof.
  intros Hget. unfold transition_model. rewrite Hget.
  destruct corpus as [|entry corpus]; [discriminate|]. reflexivity.
Qed.

(** At a dangling page every damped turn of the sampler keeps the current
    page: the distribution's only entry is the page itself, so the selection
    loop either picks it or picks nothing. *)
Lemma sample_step_stays_at_dangling_page (corpus : dict pyset)
    (damping_factor : R) (pages : list string) (w : walk R) (count : nat) :
  dict_get corpus (current_page w) = Ok [] ->
  dict_get (page_count w) (current_page w) = Ok count ->
  leb (uniform_draws (gen w) (position (gen w))) damping_factor = true ->
  exists w',
    sample_step corpus damping_factor pages w = Ok w'
    /\ current_page w' = current_page w.
Proof.
  intros Hdangling Hcount Hcoin. unfold sample_step.
  rewrite Hcount. cbn [bind random_uniform]. rewrite Hcoin.
  rewrite (transition_model_dangling corpus (current_page w) damping_factor
             Hdangling).
  cbn [bind]. eexists. split; [reflexivity|].
  cbn [current_page choose_link].
  match goal with
  | |- (if ?b then _ else _) = _ => destruct b; reflexivity
  end.
Qed.

(** A dangling page adds nothing to any page's running probability. *)
Lemma inbound_dangling (corpus : dict pyset) (damping_factor : R) (N : nat)
    (probability_page : dict R) (cur_page key : string) (rest : list string)
    (running_probability : R) :
  dict_get corpus key = Ok [] ->
  inbound corpus damping_factor N probability_page cur_page (key :: rest)
    running_probability
  = inbound corpus damping_factor N probability_page cur_page rest
      running_probability.
Proof.
  intros Hget. cbn [inbound]. rewrite Hget.
  destruct (String.eqb key cur_page); reflexivity.
Qed.

(** A pass that ends at the [return] hands back the distribution it was
    given. *)
Lemma update_returns_previous (corpus : dict pyset) (damping_factor : R)
    (N : nat) (probability_page : dict R) (ks : list string)
    (new_prob_page returned : dict R) :
  update corpus damping_factor N probability_page ks new_prob_page
  = Ok (Returned returned) ->
  returned = probability_page.
Proof.
  revert new_prob_page.
  induction ks as [|cur_page ks IH]; intros new_prob_page; cbn [update].
  - discriminate.
  - destruct (new_rank corpus damping_factor N probability_page cur_page)
      as [new_value|e]; cbn [bind]; [|discriminate].
    destruct (dict_get probability_page cur_page) as [prev_prob|e];
      cbn [bind]; [|discriminate].
    destruct (ltb (absolute (sub new_value prev_prob)) tolerance).
    + intros [= <-]. reflexivity.
    + apply IH.
Qed.

(** A pass returns as soon as the first page's change is below the
    tolerance, whatever the other pages would do. *)
Lemma update_returns_at_first_page (corpus : dict pyset)
    (damping_factor : R) (N : nat) (probability_page : dict R)
    (cur_page : string) (ks : list string) (new_prob_page : dict R)
    (new_value prev_prob : R) :
  new_rank corpus damping_factor N probability_page cur_page = Ok new_value ->
  dict_get probability_page cur_page = Ok prev_prob ->
  ltb (absolute (sub new_value prev_prob)) tolerance = true ->
  update corpus damping_factor N probability_page (cur_page :: ks)
    new_prob_page
  = Ok (Returned probability_page).
Proof.
  intros Hnew Hprev Hdx. cbn [update]. rewrite Hnew. cbn [bind].
  rewrite Hprev. cbn [bind]. now rewrite Hdx.
Qed.

(** On the single-node graph the sampler returns [{A: n/n}]. *)
Lemma sample_pagerank_single (damping_factor : R) (n : nat)
    (g : generator R) :
  sample_pagerank single_corpus damping_factor (S n) g
  = Ok [("A", div (of_nat (S n)) (of_nat (S n)))].
Proof.
  destruct (sample_pagerank_counts single_corpus damping_factor (S n) g)
    as (counts & -> & Hkeys & Hsum).
  - discriminate.
  - repeat constructor. intros [].
  - apply links_inside_closed. reflexivity.
  - lia.
  - destruct counts as [|[k c] [|entry counts]]; try discriminate.
    simpl in Hkeys, Hsum. injection Hkeys as ->.
    rewrite Nat.add_0_r in Hsum. subst c. reflexivity.
Qed.

(** On the single-node graph, when the first pass moves [A] by the
    tolerance or more, the second pass finds no change and the iteration
    returns the rank the first pass computed, [(1 - d)/1 + 0]. *)
Lemma iterate_pagerank_single_two_passes (damping_factor : R) :
  let one := div (of_nat 1) (of_nat 1) in
  let x := add (div (sub (of_nat 1) damping_factor) (of_nat 1)) (of_nat 0) in
  ltb (absolute (sub x one)) tolerance = false ->
  ltb (absolute (sub x x)) tolerance = true ->
  iterate_pagerank single_corpus damping_factor = Ok (Some [("A", x)]).
Proof.
  intros one x Hfirst Hsecond.
  unfold iterate_pagerank, single_corpus.
  cbn [keys map fst List.length initial_ranks truediv bind dict_set].
  change 100 with (S (S 98)). generalize 98. intros remaining.
  cbn [iterate_loop keys map fst update new_rank inbound truediv bind
       dict_get dict_set String.eqb Ascii.eqb Bool.eqb].
  fold one. fold x. rewrite Hfirst.
  cbn [iterate_loop keys map fst update new_rank inbound truediv bind
       dict_get dict_set String.eqb Ascii.eqb Bool.eqb].
  fold x. rewrite Hsecond. reflexivity.
Qed.

End GeneralFacts.

(** In exact arithmetic that is the case for every damping factor from the
    tolerance up to 1: the iteration returns [{A: 1 - d}]. *)
Lemma iterate_pagerank_single_exact (damping_factor : Q) :
  (1 # 1000 <= damping_factor)%Q -> (damping_factor <= 1)%Q ->
  exists v : Q,
    iterate_pagerank single_corpus damping_factor = Ok (Some [("A", v)])
    /\ (v == 1 - damping_factor)%Q.
Proof.
  intros Hlo Hhi. eexists. split.
  - apply iterate_pagerank_single_two_passes.
    + cbn [of_nat add sub div ltb absolute tolerance Q_Number].
      apply negb_false_iff, Qle_bool_iff.
      match goal with
      | |- (_ <= Qabs ?e)%Q =>
          assert (Heq : (e == - damping_factor)%Q)
            by (unfold inject_Z; simpl; field)
      end.
      rewrite Heq, Qabs_opp, Qabs_pos; lra.
    + cbn [of_nat add sub div ltb absolute tolerance Q_Number].
      apply negb_true_iff.
      match goal with
      | |- Qle_bool _ (Qabs ?e) = false =>
          assert (Heq : (e == 0)%Q) by ring;
          destruct (Qle_bool (1 # 1000) (Qabs e)) eqn:Hb; [|reflexivity]
      end.
      apply Qle_bool_iff in Hb. rewrite Heq in Hb.
      vm_compute in Hb. now elim Hb.
  - cbn [of_nat add sub div Q_Number]. unfold inject_Z. simpl. field.
Qed.

(** ** The selection loop in exact arithmetic *)

Section ExactFacts.

Local Open Scope Q_scope.

Lemma partial_sums_grow (l : list Q) (a : Q) :
  Forall (fun v => 0 <= v) l -> a <= fold_left Qplus l a.
Proof.
  revert a. induction l as [|v l IH]; intros a Hall; simpl.
  - apply Qle_refl.
  - inversion Hall as [|? ? Hv Hl]; subst.
    apply Qle_trans with (a + v); [lra|]. now apply IH.
Qed.

(** A draw above the whole mass is above every running sum: the loop never
    reaches its [break]. *)
Lemma choose_link_beyond (items : dict Q) (u running : Q) (cur : string) :
  Forall (fun v => 0 <= v) (values items) ->
  fold_left Qplus (values items) running < u ->
  choose_link items u running cur = cur.
Proof.
  revert running.
  induction items as [|[page p] items IH]; intros running Hall Hlt; simpl.
  - reflexivity.
  - simpl in Hall, Hlt. inversion Hall as [|? ? Hp Hrest]; subst.
    destruct (Qle_bool u (running + p)) eqn:Hle.
    + apply Qle_bool_iff in Hle.
      pose proof (partial_sums_grow (values items) (running + p) Hrest). lra.
    + now apply IH.
Qed.

(** With such a draw the test before the [break] fails at every entry. *)
Lemma running_sum_below (items : dict Q) (u start : Q) (j : nat) :
  Forall (fun v => 0 <= v) (values items) ->
  fold_left Qplus (values items) start < u ->
  Qle_bool u (running_sum start items j) = false.
Proof.
  intros Hall Hlt. unfold running_sum. cbn [add Q_Number].
  destruct (Qle_bool u _) eqn:Hle; [|reflexivity].
  apply Qle_bool_iff in Hle.
  rewrite <- (firstn_skipn (S j) (values items)) in Hlt, Hall.
  rewrite fold_left_app in Hlt. apply Forall_app in Hall.
  pose proof (partial_sums_grow (skipn (S j) (values items))
                (fold_left Qplus (firstn (S j) (values items)) start)
                (proj2 Hall)).
  lra.
Qed.

Lemma quotient_nonneg (x : Q) (n : nat) :
  0 <= x -> 0 <= x / inject_Z (Z.of_nat (S n)).
Proof.
  intros Hx. apply Qle_shift_div_l.
  - unfold Qlt. simpl. lia.
  - lra.
Qed.

Lemma assign_links_forall (P : Q -> Prop) (v : Q) (links : pyset)
    (probability : dict Q) :
  P v ->
  Forall P (values probability) ->
  Forall P (values (fold_left
                      (fun probability key => dict_set probability key v)
                      links probability)).
Proof.
  intros Hv. revert probability.
  induction links as [|l links IH]; intros p Hp; simpl; [exact Hp|].
  apply IH. now apply values_dict_set_forall.
Qed.

(** With a damping factor in [[0,1]] no probability is negative. *)
Lemma transition_model_nonneg (corpus : dict pyset) (page : string)
    (damping_factor : Q) (dist : dict Q) :
  0 <= damping_factor -> damping_factor <= 1 ->
  transition_model corpus page damping_factor = Ok dist ->
  Forall (fun v => 0 <= v) (values dist).
Proof.
  intros Hd0 Hd1. unfold transition_model.
  destruct (dict_get corpus page) as [links|e]; cbn [bind]; [|discriminate].
  assert (Hppl : forall ppl,
             (if (0 <? List.length links)%nat
              then truediv damping_factor (List.length links)
              else Ok (of_nat 0)) = Ok ppl -> 0 <= ppl).
  { destruct (List.length links) as [|m]; simpl.
    - intros ppl [= <-]. apply Qle_refl.
    - intros ppl [= <-]. now apply quotient_nonneg. }
  destruct (if (0 <? List.length links)%nat
            then truediv damping_factor (List.length links)
            else Ok (of_nat 0)) as [ppl|e]; cbn [bind]; [|discriminate].
  specialize (Hppl ppl eq_refl).
  destruct (List.length corpus) as [|m]; cbn [bind truediv]; [discriminate|].
  intros [= <-].
  assert (Hremain : 0 <= (1 - damping_factor) / inject_Z (Z.of_nat (S m)))
    by (apply quotient_nonneg; lra).
  apply assign_links_forall.
  - change (0 <= ppl + (1 - damping_factor) / inject_Z (Z.of_nat (S m))).
    lra.
  - simpl. constructor; [exact Hremain|constructor].
Qed.

(** The sum of the sampler's result. *)

Lemma total_frequencies (n : nat) (cs : list nat) (a : Q) :
  (0 < n)%nat ->
  fold_left Qplus
    (map (fun c => inject_Z (Z.of_nat c) / inject_Z (Z.of_nat n)) cs) a
  == a + inject_Z (Z.of_nat (list_sum cs)) / inject_Z (Z.of_nat n).
Proof.
  intros Hn.
  assert (Hnz : ~ inject_Z (Z.of_nat n) == 0).
  { intros Heq. unfold Qeq in Heq. simpl in Heq. lia. }
  revert a. induction cs as [|c cs IH]; intros a; simpl.
  - unfold Qdiv. rewrite Qmult_0_l. now rewrite Qplus_0_r.
  - rewrite IH. rewrite Nat2Z.inj_add, inject_Z_plus. field. exact Hnz.
Qed.

Lemma total_frequency_one (n : nat) (counts : dict nat) :
  (0 < n)%nat ->
  list_sum (values counts) = n ->
  total (R:=Q) (values (map (frequency n) counts)) == 1.
Proof.
  intros Hn Hsum. unfold total, values, frequency. rewrite map_map. simpl.
  rewrite <- (map_map snd
                (fun c => inject_Z (Z.of_nat c) / inject_Z (Z.of_nat n))).
  rewrite total_frequencies by exact Hn.
  fold (values counts). rewrite Hsum. field.
  intros Heq. unfold Qeq in Heq. simpl in Heq. lia.
Qed.

End ExactFacts.

(** ** The claims *)

Section TransitionAndPasses.

Local Open Scope float_scope.

(** C1.  On the graph [{A: {}, B: {A}}] with damping factor [0.5] the
    distribution [transition_model] returns for the dangling page [A] is
    [{A: 0.25}]: it has no entry for [B] and its values sum to [0.25], where
    the docstring promises a probability distribution and the claim [1/N =
    0.5] for every page.  From a page with a link, on
    [{A: {B}, B: {}, C: {}, D: {}}], the values sum to [0.75]. *)
Theorem transition_model_loses_mass :
  transition_model (R:=float) dangling_corpus "A" 0.5 = Ok [("A", 0.25)]
  /\ dict_get [("A", 0.25)] "B" = Raise (KeyError "B")
  /\ total (values [("A", 0.25)]) = 0.25
  /\ (exists dist,
        transition_model (R:=float) one_link_corpus "A" 0.5 = Ok dist
        /\ total (values dist) = 0.75).
Proof.
  repeat split; try (vm_compute; reflexivity).
  eexists. split; vm_compute; reflexivity.
Qed.

(** C2.  On the graph [{A: {B}, B: {}, C: {}, D: {}}] with damping factor
    [0.5], [transition_model] at [A] (whose outlink set [{B}] is not empty)
    returns [{A: 0.125, B: 0.625}]: the values of [A] and [B] are the
    claimed ones, but the pages [C] and [D] are not keys of the mapping, and
    looking them up raises [KeyError]. *)
Theorem transition_model_omits_unlinked_pages :
  exists dist,
    transition_model (R:=float) one_link_corpus "A" 0.5 = Ok dist
    /\ dist = [("A", 0.125); ("B", 0.625)]
    /\ keys one_link_corpus = ["A"; "B"; "C"; "D"]
    /\ dict_get dist "C" = Raise (KeyError "C")
    /\ dict_get dist "D" = Raise (KeyError "D").
Proof.
  eexists. repeat split; vm_compute; reflexivity.
Qed.

(** C3.  On the graph [{A: {B}, B: {A}, C: {B}, D: {B}}] with damping
    factor [0.5], [iterate_pagerank] returns the initial distribution (every
    page at [0.25]) from inside its first pass: the new rank of the first
    page [A] is [0.25], a change of [0], and the function returns there,
    although the new rank of [B] in the same pass is [0.5], a change of
    [0.25], which is not below the tolerance [0.001].  What it returns is
    the previous distribution, not the new pass. *)
Theorem iterate_pagerank_returns_on_first_small_delta :
  initial_ranks (R:=float) (keys hub_corpus) 4 [] = Ok quarter_ranks
  /\ iterate_pagerank (R:=float) hub_corpus 0.5 = Ok (Some quarter_ranks)
  /\ new_rank (R:=float) hub_corpus 0.5 4 quarter_ranks "A" = Ok 0.25
  /\ new_rank (R:=float) hub_corpus 0.5 4 quarter_ranks "B" = Ok 0.5
  /\ ltb (absolute (sub 0.5 0.25)) (tolerance (R:=float)) = false.
Proof.
  repeat split; vm_compute; reflexivity.
Qed.

(** C4.  On the graph [{A: {B}, B: {}, C: {B}, D: {B}}] with damping
    factor [0.5] and every page at rank [0.25], the dangling page [B]
    contributes nothing to the new rank of [A]: the inner loop adds [0] and
    the new rank is [(1 - d)/N = 0.125], where the claim has
    [0.125 + d * PR(B)/N = 0.15625].  The pass with these values is the one
    [iterate_pagerank] returns. *)
Theorem new_rank_ignores_dangling_page :
  dict_get sink_corpus "B" = Ok []
  /\ inbound (R:=float) sink_corpus 0.5 4 quarter_ranks "A" (keys sink_corpus) 0
     = Ok 0
  /\ new_rank (R:=float) sink_corpus 0.5 4 quarter_ranks "A" = Ok 0.125
  /\ add 0.125 (mul 0.5 (div 0.25 4)) = 0.15625
  /\ iterate_pagerank (R:=float) sink_corpus 0.5
     = Ok (Some [("A", 0.125); ("B", 0.5); ("C", 0.125); ("D", 0.125)]).
Proof.
  repeat split; vm_compute; reflexivity.
Qed.

End TransitionAndPasses.

(** What a turn of the sampler's loop does.  A turn that succeeds first
    draws a uniform value and compares it with the damping factor.  When the
    draw is at most the damping factor, a second uniform value is drawn and
    the next page is the first one, in the order of the distribution
    [transition_model] returns for the current page, at which the running
    sum of the probabilities (left to right from [0]) is at least that
    second draw, the current page being kept when there is none.  Otherwise
    the next page is the one [random.choice] picks among all pages. *)
Theorem sample_step_next_page {R : Type} `{Number R} (corpus : dict pyset)
    (damping_factor : R) (pages : list string) (w w' : walk R) :
  sample_step corpus damping_factor pages w = Ok w' ->
  (leb (uniform_draws (gen w) (position (gen w))) damping_factor = true ->
   exists dist,
     transition_model corpus (current_page w) damping_factor = Ok dist
     /\ first_reached (of_nat 0) dist
          (uniform_draws (gen w) (S (position (gen w))))
          (current_page w) (current_page w'))
  /\ (leb (uniform_draws (gen w) (position (gen w))) damping_factor = false ->
      nth_error pages
        (index_draws (gen w) (S (position (gen w))) mod List.length pages)
      = Some (current_page w')).
Proof.
  unfold sample_step.
  destruct (dict_get (page_count w) (current_page w)) as [c|e];
    cbn [bind]; [|discriminate].
  cbn [random_uniform].
  destruct (leb (uniform_draws (gen w) (position (gen w))) damping_factor).
  - destruct (transition_model corpus (current_page w) damping_factor)
      as [dist|e]; cbn [bind]; [|discriminate].
    intros [= <-]. split; [|discriminate].
    intros _. exists dist. split; [reflexivity|].
    apply choose_link_first_reached.
  - unfold random_choice. cbn [advance position index_draws].
    destruct (nth_error pages
                (index_draws (gen w) (S (position (gen w)))
                 mod List.length pages)) as [page|];
      cbn [bind]; [|discriminate].
    intros [= <-]. split; [discriminate|]. intros _. reflexivity.
Qed.

Section RestartTurn.

Local Open Scope float_scope.

Lemma sample_step_next_page_witness :
  exists w',
    sample_step fan_corpus 0.5 (keys fan_corpus) restart_walk = Ok w'
    /\ nth_error (keys fan_corpus) (2 mod 4) = Some (current_page w').
Proof.
  eexists. split; [vm_compute; reflexivity|].
  refine (proj2 (sample_step_next_page fan_corpus 0.5 (keys fan_corpus)
                   restart_walk _ _) _).
  - vm_compute. reflexivity.
  - vm_compute. reflexivity.
Defined.

(** C5.  On [{A: {B}, B: {A}, C: {A}, D: {A}}] with damping factor [0.5],
    a turn at page [A] whose first draw is [0.75] moves to [C], the page
    [random.choice] picked: the draw was compared with the damping factor
    and the restart branch was taken ([random_cnt] becomes 1).  [C] is not a
    key of the distribution [transition_model] returns for [A], so no draw
    whatever makes inverse-CDF selection over that distribution yield it:
    the next page is not sampled according to the transition model, as the
    docstring of [sample_pagerank] has it. *)
Lemma sample_step_restart_branch :
  exists (w' : walk float) (dist : dict float),
    sample_step fan_corpus 0.5 (keys fan_corpus) restart_walk = Ok w'
    /\ current_page w' = "C"
    /\ random_cnt w' = 1%nat
    /\ transition_model fan_corpus "A" 0.5 = Ok dist
    /\ dist = [("A", 0.125); ("B", 0.625)]
    /\ forall u : float, inverse_cdf dist u 0 <> Some (current_page w').
Proof.
  eexists. eexists.
  split; [vm_compute; reflexivity|]. split; [reflexivity|].
  split; [reflexivity|]. split; [vm_compute; reflexivity|].
  split; [reflexivity|].
  intros u Hsel. apply inverse_cdf_in in Hsel. simpl in Hsel.
  destruct Hsel as [Heq|[Heq|[]]]; discriminate Heq.
Qed.

End RestartTurn.

Section IterationCap.

Local Open Scope float_scope.

(** C6.  On the graph [{H: {L1, L2}, L1: {H}, L2: {H}}] with damping factor
    [0.99] no page's change falls below the tolerance in any of the 100
    passes (the ranks of [H] and of its leaves swing back and forth, the
    swing shrinking by the factor [0.99] a pass), the loop ends, and
    [iterate_pagerank] returns [None]: no error is raised and no estimate is
    returned. *)
#[warnings="-inexact-float"] Theorem iterate_pagerank_returns_none :
  iterate_pagerank (R:=float) star_corpus 0.99 = Ok None.
Proof.
  vm_compute. reflexivity.
Qed.

End IterationCap.

(** C7, as amended.  For every graph, every damping factor, every positive
    [n] and every run of the random generator, [sample_pagerank] returns a
    mapping whose keys are the pages of the graph, each page mapped to its
    visit count (the number of turns of the walk that began at the page)
    divided by [n], and the visit counts add up to exactly [n], there being
    [n] turns; in exact arithmetic the values therefore sum to exactly 1. *)
Theorem sample_pagerank_counts_partition (corpus : dict pyset) (n : nat) :
  graph corpus = true ->
  0 < n ->
  (forall (R : Type) (HR : Number R) (damping_factor : R) (g : generator R),
      exists page,
        random_choice (keys corpus) g = Ok (page, advance g)
        /\ List.length
             (visited corpus damping_factor (keys corpus) n
                (initial_walk corpus page (advance g))) = n
        /\ sample_pagerank corpus damping_factor n g
           = Ok (visit_frequencies
                   (visited corpus damping_factor (keys corpus) n
                      (initial_walk corpus page (advance g)))
                   n (keys corpus))
        /\ list_sum
             (map (count_occ string_dec
                     (visited corpus damping_factor (keys corpus) n
                        (initial_walk corpus page (advance g))))
                (keys corpus)) = n)
  /\ (forall (damping_factor : Q) (g : generator Q),
         exists dist : dict Q,
           sample_pagerank corpus damping_factor n g = Ok dist
           /\ keys dist = keys corpus
           /\ (total (values dist) == 1)%Q).
Proof.
  intros Hgraph Hn.
  destruct (graph_facts corpus Hgraph) as (Hne & Hnd & Hclosed).
  split.
  - intros R HR d g.
    destruct (sample_pagerank_visits corpus d n g Hne Hnd Hclosed Hn)
      as (page & _ & Hchoice & Hlen & Hrun & Hsum).
    exists page. auto.
  - intros d g.
    destruct (sample_pagerank_counts corpus d n g Hne Hnd Hclosed Hn)
      as (counts & Hrun & Hkeys & Hsum).
    exists (map (frequency n) counts). split; [exact Hrun|]. split.
    + rewrite <- Hkeys. unfold keys, frequency. rewrite map_map. reflexivity.
    + now apply total_frequency_one.
Qed.

Lemma sample_pagerank_counts_partition_witness :
  graph isolated_corpus = true
  /\ 0 < 22
  /\ visited isolated_corpus 0.5%float (keys isolated_corpus) 22
       (initial_walk isolated_corpus "A"
          (advance (constant_generator 0.75%float uneven_visits)))
     = repeat "A" 15 ++ repeat "B" 6 ++ ["C"]
  /\ exists page,
       random_choice (keys isolated_corpus)
         (constant_generator 0.75%float uneven_visits)
       = Ok (page, advance (constant_generator 0.75%float uneven_visits))
       /\ List.length
            (visited isolated_corpus 0.5%float (keys isolated_corpus) 22
               (initial_walk isolated_corpus page
                  (advance (constant_generator 0.75%float uneven_visits))))
          = 22
       /\ sample_pagerank (R:=float) isolated_corpus 0.5%float 22
            (constant_generator 0.75%float uneven_visits)
          = Ok (visit_frequencies
                  (visited isolated_corpus 0.5%float (keys isolated_corpus)
                     22
                     (initial_walk isolated_corpus page
                        (advance
                           (constant_generator 0.75%float uneven_visits))))
                  22 (keys isolated_corpus))
       /\ list_sum
            (map (count_occ string_dec
                    (visited isolated_corpus 0.5%float
                       (keys isolated_corpus) 22
                       (initial_walk isolated_corpus page
                          (advance
                             (constant_generator 0.75%float
                                uneven_visits)))))
               (keys isolated_corpus)) = 22.
Proof.
  split; [reflexivity|]. split; [lia|]. split; [vm_compute; reflexivity|].
  apply (proj1 (sample_pagerank_counts_partition isolated_corpus 22
                  eq_refl ltac:(lia))).
Defined.

(** C7, as stated, fails in the program's arithmetic.  On the graph
    [{A: {}, B: {}, C: {}}] with damping factor [0.5], [n = 22] and a run of
    the generator that visits [A] fifteen times, then [B] six times, then
    [C] once, the sampler returns [{A: 15/22, B: 6/22, C: 1/22}] in
    binary64.  These three numbers add up, left to right, to
    [0.9999999999999999]; their exact sum as rationals is below 1 by more
    than [2^-54], half the gap between 1 and the binary64 number before it,
    so that even their correctly rounded sum is not [1.0]. *)
#[warnings="-inexact-float"] Lemma sample_pagerank_sum_not_one :
  exists dist : dict float,
    sample_pagerank (R:=float) isolated_corpus 0.5%float 22
      (constant_generator 0.75%float uneven_visits)
    = Ok dist
    /\ dist = [("A", 0.6818181818181818%float);
               ("B", 0.2727272727272727%float);
               ("C", 0.045454545454545456%float)]
    /\ total (values dist) = 0.9999999999999999%float
    /\ PrimFloat.eqb (total (values dist)) 1%float = false
    /\ (total (map float_to_Q (values dist)) < 1 - Qpower 2 (-54))%Q.
Proof.
  eexists. split; [vm_compute; reflexivity|].
  split; [reflexivity|]. split; [vm_compute; reflexivity|].
  split; vm_compute; reflexivity.
Qed.

Section IterationResult.

Local Open Scope float_scope.

(** C8.  On the graph [{A: {B}, B: {}, C: {B}, D: {B}}] with damping factor
    [0.5], [iterate_pagerank] returns
    [{A: 0.125, B: 0.5, C: 0.125, D: 0.125}], whose values sum to [0.875]:
    the result is not renormalized and is [0.125] away from [1]. *)
#[warnings="-inexact-float"] Theorem iterate_pagerank_not_renormalized :
  exists dist,
    iterate_pagerank (R:=float) sink_corpus 0.5 = Ok (Some dist)
    /\ total (values dist) = 0.875
    /\ leb (absolute (sub (total (values dist)) 1)) 1e-6 = false.
Proof.
  eexists. repeat split; vm_compute; reflexivity.
Qed.

(** C9.  On the single-node graph [{A: {}}] with damping factor [0.5],
    [iterate_pagerank] returns [{A: 0.5}], not [{A: 1.0}]: the first pass
    moves [A] to [(1 - d)/1 = 0.5], the second pass finds no change and
    returns. *)
Theorem iterate_pagerank_single_page :
  iterate_pagerank (R:=float) single_corpus 0.5 = Ok (Some [("A", 0.5)]).
Proof.
  vm_compute. reflexivity.
Qed.

End IterationResult.


Section DampedTurn.

Local Open Scope float_scope.



End DampedTurn.

(** ** Further properties: transition_model *)

Lemma dict_get_missing {V : Type} (d : dict V) (k : string) :
  ~ In k (keys d) -> dict_get d k = Raise (KeyError k).
Proof.
  induction d as [|[k' v'] d IH]; simpl; [reflexivity|].
  intros Hnotin. destruct (String.eqb_spec k k') as [->|Hne]; [tauto|].
  apply IH. tauto.
Qed.

Lemma constant_sum (c : Q) (l : list string) (a : Q) :
  (fold_left Qplus (map (fun _ => c) l) a
   == a + inject_Z (Z.of_nat (List.length l)) * c)%Q.
Proof.
  revert a. induction l as [|x l IH]; intros a.
  - simpl. ring.
  - cbn [map fold_left List.length]. rewrite IH.
    rewrite Nat2Z.inj_succ, <- Z.add_1_r, inject_Z_plus. ring.
Qed.

Section TransitionProperties.

Context {R : Type} `{Number R}.

(** X1.  [transition_model] raises [KeyError] for the page, and nothing
    else, exactly when the page is not a key of the corpus; for every page
    of the corpus it returns a distribution (the division by the number of
    pages cannot fail there). *)
Theorem transition_model_raises_only_key_error (corpus : dict pyset)
    (page : string) (damping_factor : R) :
  (In page (keys corpus)
   /\ exists dist, transition_model corpus page damping_factor = Ok dist)
  \/ (~ In page (keys corpus)
      /\ transition_model corpus page damping_factor
         = Raise (KeyError page)).
Proof.
  destruct (in_dec string_dec page (keys corpus)) as [Hin|Hnotin].
  - left. split; [exact Hin|]. now apply transition_model_ok.
  - right. split; [exact Hnotin|]. unfold transition_model.
    now rewrite (dict_get_missing corpus page Hnotin).
Qed.

(** X2.  When the links of the page are distinct names other than the page
    itself, the returned distribution lists the page first, with
    probability [(1 - d)/N], then its links in their order, each with
    probability [d/|L| + (1 - d)/N]; it has no other entry.  At a dangling
    page the page is the only entry. *)
Theorem transition_model_shape (corpus : dict pyset) (page : string)
    (damping_factor : R) (links : pyset) :
  dict_get corpus page = Ok links ->
  distinct (page :: links) = true ->
  transition_model corpus page damping_factor
  = Ok ((page,
         div (sub (of_nat 1) damping_factor) (of_nat (List.length corpus)))
          :: map (fun key =>
                    (key,
                     add (div damping_factor (of_nat (List.length links)))
                       (div (sub (of_nat 1) damping_factor)
                          (of_nat (List.length corpus)))))
               links).
Proof.
  intros Hget Hdistinct. destruct links as [|l links].
  - now apply transition_model_dangling.
  - apply (transition_model_entries corpus page damping_factor l links Hget).
    now apply distinct_NoDup.
Qed.

End TransitionProperties.

Lemma transition_model_shape_witness :
  dict_get fan_corpus "A" = Ok ["B"]
  /\ distinct ["A"; "B"] = true
  /\ transition_model (R:=Q) fan_corpus "A" (1 # 2)
     = Ok [("A", ((1 - (1 # 2)) / 4)%Q);
           ("B", ((1 # 2) / 1 + (1 - (1 # 2)) / 4)%Q)].
Proof.
  split; [reflexivity|]. split; [reflexivity|].
  exact (transition_model_shape (R:=Q) fan_corpus "A" (1 # 2) ["B"]
           eq_refl eq_refl).
Defined.

Section TransitionExact.

Local Open Scope Q_scope.

(** X3.  In exact arithmetic and for a damping factor in [[0,1]], every
    value of the distribution [transition_model] returns lies in [[0,1]]. *)
Theorem transition_model_probabilities (corpus : dict pyset) (page : string)
    (damping_factor : Q) (dist : dict Q) :
  0 <= damping_factor -> damping_factor <= 1 ->
  transition_model corpus page damping_factor = Ok dist ->
  Forall (fun v => 0 <= v /\ v <= 1) (values dist).
Proof.
  intros Hd0 Hd1. unfold transition_model.
  destruct (dict_get corpus page) as [links|e]; cbn [bind]; [|discriminate].
  assert (Hquot : forall x n, 0 <= x -> x <= 1 ->
             0 <= x / inject_Z (Z.of_nat (S n))
             /\ x / inject_Z (Z.of_nat (S n)) <= x).
  { intros x n Hx0 Hx1.
    assert (Hone : 1 <= inject_Z (Z.of_nat (S n)))
      by (unfold Qle; simpl; lia).
    generalize dependent (inject_Z (Z.of_nat (S n))). intros c Hone.
    split.
    - apply Qle_shift_div_l; lra.
    - apply Qle_shift_div_r; [lra|].
      pose proof (Qmult_le_0_compat x (c - 1) Hx0 ltac:(lra)). lra. }
  assert (Hppl : forall ppl,
             (if (0 <? List.length links)%nat
              then truediv damping_factor (List.length links)
              else Ok (of_nat 0)) = Ok ppl ->
             0 <= ppl /\ ppl <= damping_factor).
  { destruct (List.length links) as [|m]; simpl.
    - intros ppl [= <-]. change (inject_Z 0) with 0. lra.
    - intros ppl [= <-]. now apply Hquot. }
  destruct (if (0 <? List.length links)%nat
            then truediv damping_factor (List.length links)
            else Ok (of_nat 0)) as [ppl|e]; cbn [bind]; [|discriminate].
  specialize (Hppl ppl eq_refl).
  destruct (List.length corpus) as [|m]; cbn [bind truediv]; [discriminate|].
  intros [= <-].
  destruct (Hquot (1 - damping_factor) m ltac:(lra) ltac:(lra))
    as [Hr0 Hr1].
  change (sub (of_nat 1) damping_factor) with (1 - damping_factor) in *.
  change (div (1 - damping_factor) (of_nat (S m)))
    with ((1 - damping_factor) / inject_Z (Z.of_nat (S m))) in *.
  apply assign_links_forall.
  - change (0 <= ppl + (1 - damping_factor) / inject_Z (Z.of_nat (S m))
            /\ ppl + (1 - damping_factor) / inject_Z (Z.of_nat (S m)) <= 1).
    lra.
  - constructor; [|constructor].
    change (0 <= (1 - damping_factor) / inject_Z (Z.of_nat (S m))
            /\ (1 - damping_factor) / inject_Z (Z.of_nat (S m)) <= 1).
    lra.
Qed.

Lemma transition_model_probabilities_witness :
  0 <= 1 # 2 /\ 1 # 2 <= 1
  /\ transition_model fan_corpus "A" (1 # 2)
     = Ok [("A", 1 # 8); ("B", 10 # 16)]
  /\ Forall (fun v => 0 <= v /\ v <= 1) [1 # 8; 10 # 16].
Proof.
  split; [vm_compute; discriminate|]. split; [vm_compute; discriminate|].
  split; [reflexivity|].
  refine (transition_model_probabilities fan_corpus "A" (1 # 2)
            [("A", 1 # 8); ("B", 10 # 16)] _ _ _).
  - vm_compute. discriminate.
  - vm_compute. discriminate.
  - reflexivity.
Defined.

(** X4.  In exact arithmetic, at a page with at least one link (the links
    distinct names other than the page), the values of the returned
    distribution sum to [d + (|L| + 1) (1 - d)/N]: the share [(1 - d)/N] of
    every page that is neither the page nor one of its links is missing
    from the mass. *)
Theorem transition_model_mass (corpus : dict pyset) (page : string)
    (damping_factor : Q) (l : string) (links : pyset) :
  dict_get corpus page = Ok (l :: links) ->
  distinct (page :: l :: links) = true ->
  exists dist,
    transition_model corpus page damping_factor = Ok dist
    /\ total (values dist)
       == damping_factor
          + inject_Z (Z.of_nat (List.length (l :: links) + 1))
            * ((1 - damping_factor)
               / inject_Z (Z.of_nat (List.length corpus))).
Proof.
  intros Hget Hdistinct.
  rewrite (transition_model_shape corpus page damping_factor (l :: links)
             Hget Hdistinct).
  eexists. split; [reflexivity|].
  unfold total, values. cbn [map snd fold_left]. rewrite map_map.
  cbn [snd add sub div of_nat Q_Number].
  rewrite (constant_sum _ links). cbn [List.length].
  assert (HN : ~ inject_Z (Z.of_nat (List.length corpus)) == 0).
  { destruct corpus; [discriminate|].
    intros Heq. unfold Qeq in Heq. simpl in Heq. lia. }
  assert (HL : 0 <= inject_Z (Z.of_nat (List.length links)))
    by (unfold Qle; simpl; lia).
  rewrite Nat.add_1_r, !Nat2Z.inj_succ, <- !Z.add_1_r, !inject_Z_plus.
  change (inject_Z (Z.of_nat 0)) with 0.
  change (inject_Z (Z.of_nat 1)) with 1.
  change (inject_Z 1) with 1.
  generalize dependent (inject_Z (Z.of_nat (List.length links))).
  generalize dependent (inject_Z (Z.of_nat (List.length corpus))).
  intros N HN n Hn. field. split; [exact HN|]. lra.
Qed.

Lemma transition_model_mass_witness :
  dict_get fan_corpus "A" = Ok ["B"]
  /\ distinct ["A"; "B"] = true
  /\ exists dist,
       transition_model fan_corpus "A" (1 # 2) = Ok dist
       /\ total (values dist)
          == (1 # 2) + inject_Z 2 * ((1 - (1 # 2)) / inject_Z 4).
Proof.
  split; [reflexivity|]. split; [reflexivity|].
  exact (transition_model_mass fan_corpus "A" (1 # 2) "B" []
           eq_refl eq_refl).
Defined.

End TransitionExact.

(** ** Further properties: sample_pagerank *)

Lemma dict_set_not_empty {V : Type} (d : dict V) (k : string) (v : V) :
  dict_set d k v <> [].
Proof.
  destruct d as [|[k' v'] d]; simpl; [discriminate|].
  destruct (String.eqb k k'); discriminate.
Qed.

Lemma zero_counts_not_empty (ks : list string) (acc : dict nat) :
  acc <> [] ->
  fold_left (fun page_count key => dict_set page_count key 0) ks acc <> [].
Proof.
  revert acc. induction ks as [|k ks IH]; intros acc Hacc; simpl.
  - exact Hacc.
  - apply IH. apply dict_set_not_empty.
Qed.

Lemma count_le_sum (c : nat) (l : list nat) : In c l -> c <= list_sum l.
Proof.
  induction l as [|x l IH]; simpl; [tauto|].
  intros [->|Hin]; [lia|]. specialize (IH Hin). lia.
Qed.

Section SamplerProperties.

Context {R : Type} `{Number R}.

(** X5.  On the empty corpus [sample_pagerank] raises [IndexError], for
    every damping factor and every [n]: [random.choice] is given the empty
    list of pages. *)
Theorem sample_pagerank_empty_corpus (damping_factor : R) (n : nat)
    (g : generator R) :
  sample_pagerank [] damping_factor n g = Raise IndexError.
Proof.
  unfold sample_pagerank, random_choice. cbn [keys map List.length].
  destruct (index_draws g (position g) mod 0); reflexivity.
Qed.

(** X6.  With [n = 0] and a corpus that has a page, [sample_pagerank]
    raises [ZeroDivisionError]: the loop takes no turn and the first visit
    count is divided by [n]. *)
Theorem sample_pagerank_zero_samples (entry : string * pyset)
    (corpus : dict pyset) (damping_factor : R) (g : generator R) :
  sample_pagerank (entry :: corpus) damping_factor 0 g
  = Raise ZeroDivisionError.
Proof.
  unfold sample_pagerank.
  destruct (random_choice_in (keys (entry :: corpus)) g) as (page & -> & _);
    [discriminate|].
  cbn [bind sample_loop page_count keys map fold_left].
  pose proof (zero_counts_not_empty (map fst corpus)
                (dict_set [] (fst entry) 0)
                (dict_set_not_empty _ _ _)) as Hne.
  destruct (fold_left (fun page_count key => dict_set page_count key 0)
              (map fst corpus) (dict_set [] (fst entry) 0))
    as [|[key value] rest]; [congruence|].
  reflexivity.
Qed.

(** X7.  In a turn that takes the damped branch the walk follows a link of
    the current page or stays where it is: it never moves to a page the
    current page does not link to. *)
Theorem sample_step_damped_follows_link (corpus : dict pyset)
    (damping_factor : R) (pages : list string) (w w' : walk R) :
  sample_step corpus damping_factor pages w = Ok w' ->
  leb (uniform_draws (gen w) (position (gen w))) damping_factor = true ->
  current_page w' = current_page w
  \/ exists links,
       dict_get corpus (current_page w) = Ok links
       /\ In (current_page w') links.
Proof.
  unfold sample_step. intros Hstep Hcoin.
  destruct (dict_get (page_count w) (current_page w)) as [c|e];
    cbn [bind] in Hstep; [|discriminate].
  cbn [random_uniform] in Hstep. rewrite Hcoin in Hstep.
  destruct (transition_model corpus (current_page w) damping_factor)
    as [dist|e] eqn:Hdist; cbn [bind] in Hstep; [|discriminate].
  injection Hstep as <-. cbn [current_page].
  destruct (choose_link_in dist
              (uniform_draws (advance (gen w)) (position (advance (gen w))))
              (of_nat 0) (current_page w)) as [Hstay|Hkey]; [now left|].
  destruct (transition_model_keys _ _ _ _ _ Hdist Hkey)
    as (links & Hlinks & [Heq|Hin]).
  - now left.
  - right. now exists links.
Qed.

(** X8.  Every turn of the loop calls the random generator exactly twice,
    whichever branch it takes, and adds one to exactly one of the two
    branch counters: after [n] turns the generator has advanced by [2 n]
    calls and [choice_cnt + random_cnt] has grown by [n]. *)
Theorem sample_loop_draws_and_counters (corpus : dict pyset)
    (damping_factor : R) (pages : list string) (n : nat) (w w' : walk R) :
  sample_loop corpus damping_factor pages n w = Ok w' ->
  position (gen w') = position (gen w) + 2 * n
  /\ choice_cnt w' + random_cnt w' = choice_cnt w + random_cnt w + n.
Proof.
  revert w. induction n as [|n IH]; intros w; cbn [sample_loop].
  - intros [= <-]. lia.
  - destruct (sample_step corpus damping_factor pages w) as [w1|e] eqn:Hstep;
      cbn [bind]; [|discriminate].
    intros Hloop. destruct (IH w1 Hloop) as [Hpos Hcnt].
    assert (Hone : position (gen w1) = position (gen w) + 2
                   /\ choice_cnt w1 + random_cnt w1
                      = choice_cnt w + random_cnt w + 1).
    { clear - Hstep. unfold sample_step in Hstep.
      destruct (dict_get (page_count w) (current_page w)) as [c|e];
        cbn [bind] in Hstep; [|discriminate].
      cbn [random_uniform] in Hstep.
      destruct (leb (uniform_draws (gen w) (position (gen w)))
                  damping_factor).
      - destruct (transition_model corpus (current_page w) damping_factor)
          as [dist|e]; cbn [bind] in Hstep; [|discriminate].
        injection Hstep as <-. cbn. lia.
      - unfold random_choice in Hstep.
        destruct (nth_error pages _) as [page|];
          cbn [bind] in Hstep; [|discriminate].
        injection Hstep as <-. cbn. lia. }
    lia.
Qed.

End SamplerProperties.

Lemma sample_step_damped_follows_link_witness :
  exists w',
    sample_step fan_corpus (1 # 2)%Q (keys fan_corpus) linked_walk = Ok w'
    /\ (current_page w' = current_page linked_walk
        \/ exists links,
             dict_get fan_corpus (current_page linked_walk) = Ok links
             /\ In (current_page w') links).
Proof.
  eexists. split; [vm_compute; reflexivity|].
  refine (sample_step_damped_follows_link fan_corpus (1 # 2)%Q
            (keys fan_corpus) linked_walk _ _ _).
  - vm_compute. reflexivity.
  - vm_compute. reflexivity.
Defined.

Lemma sample_loop_draws_and_counters_witness :
  exists w',
    sample_loop fan_corpus 0.5%float (keys fan_corpus) 3 restart_walk = Ok w'
    /\ position (gen w') = position (gen restart_walk) + 2 * 3
    /\ choice_cnt w' + random_cnt w'
       = choice_cnt restart_walk + random_cnt restart_walk + 3.
Proof.
  eexists. split; [vm_compute; reflexivity|].
  refine (sample_loop_draws_and_counters fan_corpus 0.5%float
            (keys fan_corpus) 3 restart_walk _ _).
  vm_compute. reflexivity.
Defined.

(** X9.  In exact arithmetic, on a graph and for a positive [n], every
    value [sample_pagerank] returns lies in [[0,1]], as its docstring says
    of a PageRank value. *)
Theorem sample_pagerank_values_in_unit_interval (corpus : dict pyset)
    (damping_factor : Q) (n : nat) (g : generator Q) :
  graph corpus = true ->
  0 < n ->
  exists dist : dict Q,
    sample_pagerank corpus damping_factor n g = Ok dist
    /\ Forall (fun v => (0 <= v)%Q /\ (v <= 1)%Q) (values dist).
Proof.
  intros Hgraph Hn.
  destruct (graph_facts corpus Hgraph) as (Hne & Hnd & Hclosed).
  destruct (sample_pagerank_counts corpus damping_factor n g Hne Hnd
              Hclosed Hn) as (counts & Hrun & _ & Hsum).
  exists (map (frequency n) counts). split; [exact Hrun|].
  apply Forall_forall. intros v Hv. unfold values in Hv.
  rewrite map_map in Hv. apply in_map_iff in Hv.
  destruct Hv as ([key c] & <- & Hin).
  assert (Hc : c <= n).
  { rewrite <- Hsum. apply count_le_sum. unfold values.
    apply in_map_iff. now exists (key, c). }
  cbn [frequency snd fst div of_nat Q_Number].
  assert (Hpos : (0 < inject_Z (Z.of_nat n))%Q)
    by (unfold Qlt; simpl; lia).
  split.
  - apply Qle_shift_div_l; [exact Hpos|].
    rewrite Qmult_0_l. unfold Qle. simpl. lia.
  - apply Qle_shift_div_r; [exact Hpos|].
    rewrite Qmult_1_l. unfold Qle. simpl. lia.
Qed.

Lemma sample_pagerank_values_in_unit_interval_witness :
  graph isolated_corpus = true
  /\ 0 < 6
  /\ exists dist : dict Q,
       sample_pagerank isolated_corpus (1 # 2)%Q 6
         (constant_generator (3 # 4)%Q uneven_visits) = Ok dist
       /\ Forall (fun v => (0 <= v)%Q /\ (v <= 1)%Q) (values dist).
Proof.
  split; [reflexivity|]. split; [lia|].
  exact (sample_pagerank_values_in_unit_interval isolated_corpus (1 # 2)%Q 6
           (constant_generator (3 # 4)%Q uneven_visits) eq_refl
           ltac:(lia)).
Defined.

(** ** Further properties: iterate_pagerank *)

Lemma dict_get_value_in {V : Type} (d : dict V) (k : string) (v : V) :
  dict_get d k = Ok v -> In v (values d).
Proof.
  intros Hget. apply dict_get_entry in Hget.
  unfold values. apply in_map_iff. now exists (k, v).
Qed.

Section IterationProperties.

Context {R : Type} `{Number R}.

Lemma initial_ranks_uniform (ks : list string) (N : nat) (acc : dict R) :
  N <> 0 ->
  NoDup (keys acc ++ ks) ->
  initial_ranks ks N acc
  = Ok (acc ++ map (fun key => (key, div (of_nat 1) (of_nat N))) ks).
Proof.
  intros HN. revert acc.
  induction ks as [|k ks IH]; intros acc Hnd; cbn [initial_ranks map].
  - now rewrite app_nil_r.
  - destruct N as [|N]; [congruence|]. cbn [truediv bind].
    rewrite dict_set_absent.
    + rewrite IH.
      * now rewrite <- app_assoc.
      * unfold keys in *. rewrite map_app, <- app_assoc. exact Hnd.
    + apply NoDup_remove_2 in Hnd. intros Hin. apply Hnd.
      apply in_or_app. now left.
Qed.

(** The inner loop cannot fail when the distribution has every page of the
    corpus as a key. *)
Lemma inbound_ok (corpus : dict pyset) (damping_factor : R) (N : nat)
    (probability_page : dict R) (cur_page : string) (ks : list string)
    (running_probability : R) :
  N <> 0 ->
  incl ks (keys corpus) ->
  incl (keys corpus) (keys probability_page) ->
  exists r,
    inbound corpus damping_factor N probability_page cur_page ks
      running_probability = Ok r.
Proof.
  intros HN. revert running_probability.
  induction ks as [|key ks IH]; intros running Hks Hcover; cbn [inbound].
  - eauto.
  - assert (Hrest : incl ks (keys corpus))
      by (intros k Hk; apply Hks; now right).
    destruct (String.eqb key cur_page); [now apply IH|].
    destruct (dict_get_in corpus key (Hks key (or_introl eq_refl)))
      as [links ->]. cbn [bind].
    destruct (negb (set_mem cur_page links)); [now apply IH|].
    destruct (dict_get_in probability_page key
                (Hcover key (Hks key (or_introl eq_refl)))) as [p ->].
    cbn [bind].
    destruct (List.length links) as [|m]; cbn [Nat.ltb Nat.leb].
    + destruct N as [|N]; [congruence|]. cbn [truediv bind]. now apply IH.
    + cbn [truediv bind]. now apply IH.
Qed.

Lemma update_ok (corpus : dict pyset) (damping_factor : R) (N : nat)
    (probability_page : dict R) (ks : list string) (new_prob_page : dict R) :
  N <> 0 ->
  incl ks (keys corpus) ->
  keys probability_page = keys corpus ->
  NoDup (keys new_prob_page ++ ks) ->
  update corpus damping_factor N probability_page ks new_prob_page
  = Ok (Returned probability_page)
  \/ exists completed,
       update corpus damping_factor N probability_page ks new_prob_page
       = Ok (Completed completed)
       /\ keys completed = keys new_prob_page ++ ks.
Proof.
  intros HN. revert new_prob_page.
  induction ks as [|cur_page ks IH]; intros acc Hks Hkeys Hnd; cbn [update].
  - right. exists acc. now rewrite app_nil_r.
  - assert (Hcover : incl (keys corpus) (keys probability_page))
      by (rewrite Hkeys; apply incl_refl).
    unfold new_rank. destruct N as [|N]; [congruence|]. cbn [truediv bind].
    destruct (inbound_ok corpus damping_factor (S N) probability_page
                cur_page (keys corpus) (of_nat 0) HN (incl_refl _) Hcover)
      as [running ->]. cbn [bind].
    destruct (dict_get_in probability_page cur_page
                (Hcover cur_page (Hks cur_page (or_introl eq_refl))))
      as [prev ->]. cbn [bind].
    destruct (ltb _ tolerance); [now left|].
    assert (Hfresh : ~ In cur_page (keys acc)).
    { apply NoDup_remove_2 in Hnd. intros Hin. apply Hnd.
      apply in_or_app. now left. }
    rewrite (dict_set_absent acc cur_page _ Hfresh).
    destruct (IH (acc ++ [(cur_page, add (div (sub (of_nat 1) damping_factor)
                                             (of_nat (S N))) running)]))
      as [Hret|(completed & Hrun & Hck)].
    + intros k Hk. apply Hks. now right.
    + exact Hkeys.
    + unfold keys in *. rewrite map_app, <- app_assoc. exact Hnd.
    + now left.
    + right. exists completed. split; [exact Hrun|].
      rewrite Hck. unfold keys. rewrite map_app, <- app_assoc. reflexivity.
Qed.

Lemma iterate_loop_ok (corpus : dict pyset) (damping_factor : R)
    (remaining : nat) (probability_page : dict R) :
  corpus <> [] ->
  NoDup (keys corpus) ->
  keys probability_page = keys corpus ->
  exists r,
    iterate_loop corpus damping_factor (List.length corpus) remaining
      probability_page = Ok r
    /\ forall dist, r = Some dist -> keys dist = keys corpus.
Proof.
  intros Hne Hnd.
  assert (HN : List.length corpus <> 0) by (destruct corpus; simpl; congruence).
  revert probability_page.
  induction remaining as [|remaining IH]; intros pp Hkeys;
    cbn [iterate_loop].
  - exists None. split; [reflexivity|discriminate].
  - destruct (update_ok corpus damping_factor (List.length corpus) pp
                (keys corpus) [] HN (incl_refl _) Hkeys Hnd)
      as [->|(completed & -> & Hck)]; cbn [bind].
    + exists (Some pp). split; [reflexivity|]. now intros dist [= <-].
    + apply IH. exact Hck.
Qed.

(** X10.  On the empty corpus [iterate_pagerank] returns [None], for every
    damping factor: the hundred passes have nothing to update and nothing
    to compare, and no division by the number of pages is evaluated. *)
Theorem iterate_pagerank_empty_corpus (damping_factor : R) :
  iterate_pagerank [] damping_factor = Ok None.
Proof.
  reflexivity.
Qed.

(** X11.  [iterate_pagerank] raises no exception, whatever the links are
    (a link to a page outside the corpus is never looked up): on a corpus
    whose keys are distinct, as a dictionary's are, it returns [None] or a
    distribution, and a returned distribution has exactly the pages of the
    corpus as keys, in the order of the corpus. *)
Theorem iterate_pagerank_never_raises (corpus : dict pyset)
    (damping_factor : R) :
  distinct (keys corpus) = true ->
  exists r,
    iterate_pagerank corpus damping_factor = Ok r
    /\ forall dist, r = Some dist -> keys dist = keys corpus.
Proof.
  intros Hdistinct. apply distinct_NoDup in Hdistinct.
  destruct corpus as [|entry corpus].
  - exists None. split; [reflexivity|discriminate].
  - unfold iterate_pagerank.
    rewrite initial_ranks_uniform; [|discriminate|exact Hdistinct].
    cbn [bind app].
    apply (iterate_loop_ok (entry :: corpus) damping_factor 100);
      [discriminate|exact Hdistinct|].
    unfold keys. rewrite map_map. cbn [fst]. apply map_id.
Qed.

(** X12.  A page that no other page links to gets the new rank
    [(1 - d)/N + 0] in every pass, whatever the ranks of the pass before:
    its own rank is not carried over. *)
Theorem new_rank_without_inlinks (corpus : dict pyset) (damping_factor : R)
    (probability_page : dict R) (cur_page : string) :
  (0 <? List.length corpus) = true ->
  forallb (fun entry => String.eqb (fst entry) cur_page
                        || negb (set_mem cur_page (snd entry)))
    corpus = true ->
  new_rank corpus damping_factor (List.length corpus) probability_page
    cur_page
  = Ok (add (div (sub (of_nat 1) damping_factor)
               (of_nat (List.length corpus)))
          (of_nat 0)).
Proof.
  intros Hlen Hnone. unfold new_rank.
  destruct (List.length corpus) as [|N] eqn:HN; [discriminate|].
  cbn [truediv bind].
  assert (Hin : forall ks running,
             incl ks (keys corpus) ->
             inbound corpus damping_factor (S N) probability_page cur_page
               ks running = Ok running).
  { induction ks as [|key ks IH]; intros running Hks; cbn [inbound].
    - reflexivity.
    - assert (Hrest : incl ks (keys corpus))
        by (intros k Hk; apply Hks; now right).
      destruct (String.eqb key cur_page) eqn:Hkey; [now apply IH|].
      destruct (dict_get_in corpus key (Hks key (or_introl eq_refl)))
        as [links Hlinks]. rewrite Hlinks. cbn [bind].
      rewrite forallb_forall in Hnone.
      specialize (Hnone _ (dict_get_entry _ _ _ Hlinks)).
      cbn [fst snd] in Hnone. rewrite Hkey in Hnone. cbn [orb] in Hnone.
      rewrite Hnone. now apply IH. }
  rewrite Hin by apply incl_refl. reflexivity.
Qed.

End IterationProperties.

Lemma iterate_pagerank_never_raises_witness :
  distinct (keys star_corpus) = true
  /\ exists r,
       iterate_pagerank (R:=Q) star_corpus (1 # 2) = Ok r
       /\ forall dist, r = Some dist -> keys dist = keys star_corpus.
Proof.
  split; [reflexivity|].
  exact (iterate_pagerank_never_raises (R:=Q) star_corpus (1 # 2) eq_refl).
Defined.

Lemma new_rank_without_inlinks_witness :
  (0 <? List.length hub_corpus) = true
  /\ forallb (fun entry => String.eqb (fst entry) "C"
                           || negb (set_mem "C" (snd entry)))
       hub_corpus = true
  /\ new_rank (R:=float) hub_corpus 0.5%float 4 quarter_ranks "C"
     = Ok 0.125%float.
Proof.
  split; [reflexivity|]. split; [reflexivity|].
  exact (new_rank_without_inlinks (R:=float) hub_corpus 0.5%float
           quarter_ranks "C" eq_refl eq_refl).
Defined.

Section IterationExact.

Local Open Scope Q_scope.

Lemma product_nonneg (d p : Q) (n : nat) :
  0 <= d -> 0 <= p -> 0 <= d * (p / inject_Z (Z.of_nat (S n))).
Proof.
  intros Hd Hp. apply Qmult_le_0_compat; [exact Hd|].
  now apply quotient_nonneg.
Qed.

(** With non-negative ranks and a non-negative damping factor the inner
    loop only adds to the running probability. *)
Lemma inbound_grows (corpus : dict pyset) (damping_factor : Q) (N : nat)
    (probability_page : dict Q) (cur_page : string) (ks : list string)
    (running r : Q) :
  0 <= damping_factor ->
  Forall (fun v => 0 <= v) (values probability_page) ->
  inbound corpus damping_factor N probability_page cur_page ks running
  = Ok r ->
  running <= r.
Proof.
  intros Hd Hpp. rewrite Forall_forall in Hpp. revert running.
  induction ks as [|key ks IH]; intros running; cbn [inbound].
  - intros [= <-]. apply Qle_refl.
  - destruct (String.eqb key cur_page); [apply IH|].
    destruct (dict_get corpus key) as [links|e]; cbn [bind]; [|discriminate].
    destruct (negb (set_mem cur_page links)); [apply IH|].
    destruct (dict_get probability_page key) as [p|e] eqn:Hp;
      [|destruct (0 <? List.length links)%nat; discriminate].
    specialize (Hpp p (dict_get_value_in _ _ _ Hp)).
    destruct (List.length links) as [|m]; cbn [Nat.ltb Nat.leb bind].
    + destruct N as [|N]; cbn [truediv bind]; [discriminate|].
      intros Hrun. apply IH in Hrun.
      pose proof (product_nonneg damping_factor p N Hd Hpp) as Hterm.
      cbn [add mul div of_nat Q_Number] in Hrun. lra.
    + cbn [truediv bind]. intros Hrun. apply IH in Hrun.
      pose proof (product_nonneg damping_factor p m Hd Hpp) as Hterm.
      cbn [add mul div of_nat Q_Number] in Hrun. lra.
Qed.

Lemma update_at_least_base (corpus : dict pyset) (damping_factor : Q)
    (N : nat) (probability_page : dict Q) (ks : list string)
    (new_prob_page completed : dict Q) :
  0 <= damping_factor ->
  Forall (fun v => 0 <= v) (values probability_page) ->
  Forall (fun v => (1 - damping_factor) / inject_Z (Z.of_nat N) <= v)
    (values new_prob_page) ->
  update corpus damping_factor N probability_page ks new_prob_page
  = Ok (Completed completed) ->
  Forall (fun v => (1 - damping_factor) / inject_Z (Z.of_nat N) <= v)
    (values completed).
Proof.
  intros Hd Hpp. revert new_prob_page.
  induction ks as [|cur_page ks IH]; intros acc Hacc; cbn [update].
  - now intros [= <-].
  - unfold new_rank.
    destruct (truediv (sub (of_nat 1) damping_factor) N) as [part1|e] eqn:Hp1;
      cbn [bind]; [|discriminate].
    destruct (inbound corpus damping_factor N probability_page cur_page
                (keys corpus) (of_nat 0)) as [running|e] eqn:Hin;
      cbn [bind]; [|discriminate].
    destruct (dict_get probability_page cur_page) as [prev|e];
      cbn [bind]; [|discriminate].
    destruct (ltb _ tolerance); [discriminate|].
    apply IH. apply values_dict_set_forall; [exact Hacc|].
    apply inbound_grows in Hin; [|exact Hd|exact Hpp].
    destruct N as [|N]; [discriminate|]. cbn [truediv] in Hp1.
    injection Hp1 as <-.
    change (0 <= running) in Hin.
    change ((1 - damping_factor) / inject_Z (Z.of_nat (S N))
            <= (1 - damping_factor) / inject_Z (Z.of_nat (S N)) + running).
    lra.
Qed.

Lemma initial_ranks_forall (P : Q -> Prop) (ks : list string) (N : nat)
    (acc ranks : dict Q) :
  P (1 / inject_Z (Z.of_nat N)) ->
  Forall P (values acc) ->
  initial_ranks ks N acc = Ok ranks ->
  Forall P (values ranks).
Proof.
  intros HP. revert acc.
  induction ks as [|k ks IH]; intros acc Hacc; cbn [initial_ranks].
  - now intros [= <-].
  - destruct N as [|N]; cbn [truediv bind]; [discriminate|].
    apply IH. now apply values_dict_set_forall.
Qed.

Lemma iterate_loop_at_least_base (corpus : dict pyset) (damping_factor : Q)
    (N remaining : nat) (probability_page dist : dict Q) :
  0 <= damping_factor -> damping_factor <= 1 ->
  Forall (fun v => (1 - damping_factor) / inject_Z (Z.of_nat (S N)) <= v)
    (values probability_page) ->
  iterate_loop corpus damping_factor (S N) remaining probability_page
  = Ok (Some dist) ->
  Forall (fun v => (1 - damping_factor) / inject_Z (Z.of_nat (S N)) <= v)
    (values dist).
Proof.
  intros Hd0 Hd1.
  pose proof (quotient_nonneg (1 - damping_factor) N ltac:(lra)) as Hbase.
  revert probability_page.
  induction remaining as [|remaining IH]; intros pp Hpp; cbn [iterate_loop].
  - discriminate.
  - destruct (update corpus damping_factor (S N) pp (keys corpus) [])
      as [[returned|completed]|e] eqn:Hup; cbn [bind]; [| |discriminate].
    + apply update_returns_previous in Hup. subst returned.
      now intros [= <-].
    + apply IH.
      apply (update_at_least_base corpus damping_factor (S N) pp
               (keys corpus) [] completed Hd0); [|constructor|exact Hup].
      eapply Forall_impl; [|exact Hpp]. intros v Hv. cbv beta in Hv. lra.
Qed.

(** X13.  In exact arithmetic and for a damping factor in [[0,1]], every
    rank in the distribution [iterate_pagerank] returns is at least
    [(1 - d)/N]: no rank is negative, and every rank is positive when the
    damping factor is below 1 (at [d = 1] the bound is zero). *)
Theorem iterate_pagerank_ranks_at_least_base (corpus : dict pyset)
    (damping_factor : Q) (dist : dict Q) :
  0 <= damping_factor -> damping_factor <= 1 ->
  iterate_pagerank corpus damping_factor = Ok (Some dist) ->
  Forall (fun v => (1 - damping_factor)
                   / inject_Z (Z.of_nat (List.length corpus)) <= v
                   /\ 0 <= v
                   /\ (damping_factor < 1 -> 0 < v))
    (values dist).
Proof.
  intros Hd0 Hd1. unfold iterate_pagerank.
  destruct (initial_ranks (keys corpus) (List.length corpus) [])
    as [ranks|e] eqn:Hinit; cbn [bind]; [|discriminate].
  destruct (List.length corpus) as [|N] eqn:HN.
  - apply length_zero_iff_nil in HN. subst corpus. discriminate.
  - intros Hrun.
    assert (Hbase : Forall (fun v => (1 - damping_factor)
                                     / inject_Z (Z.of_nat (S N)) <= v)
                      (values dist)).
    { revert Hrun.
      apply iterate_loop_at_least_base; [exact Hd0|exact Hd1|].
      apply (initial_ranks_forall _ (keys corpus) (S N) [] ranks);
        [|constructor|exact Hinit].
      assert (Hgen : forall c, 0 < c -> (1 - damping_factor) / c <= 1 / c).
      { intros c Hc. unfold Qdiv. apply Qmult_le_compat_r; [lra|].
        apply Qinv_le_0_compat. lra. }
      apply Hgen. unfold Qlt. simpl. lia. }
    assert (Hpos : 0 < inject_Z (Z.of_nat (S N))).
    { unfold Qlt. simpl. lia. }
    pose proof (quotient_nonneg (1 - damping_factor) N ltac:(lra)) as Hnn.
    assert (Hstrict : damping_factor < 1 ->
                      0 < (1 - damping_factor) / inject_Z (Z.of_nat (S N))).
    { intros Hlt. apply Qlt_shift_div_l; [exact Hpos|]. lra. }
    generalize dependent (inject_Z (Z.of_nat (S N))). intros c Hbase _ Hnn Hstrict.
    eapply Forall_impl; [|exact Hbase].
    intros v Hv. cbv beta in Hv. split; [exact Hv|]. split.
    + lra.
    + intros Hlt. specialize (Hstrict Hlt). lra.
Qed.

Lemma iterate_pagerank_ranks_at_least_base_witness :
  0 <= 1 # 2 /\ 1 # 2 <= 1
  /\ exists dist,
       iterate_pagerank sink_corpus (1 # 2) = Ok (Some dist)
       /\ Forall (fun v => (1 - (1 # 2)) / inject_Z 4 <= v
                           /\ 0 <= v
                           /\ ((1 # 2) < 1 -> 0 < v))
            (values dist).
Proof.
  split; [vm_compute; discriminate|]. split; [vm_compute; discriminate|].
  eexists. split; [vm_compute; reflexivity|].
  refine (iterate_pagerank_ranks_at_least_base sink_corpus (1 # 2) _ _ _ _).
  - vm_compute. discriminate.
  - vm_compute. discriminate.
  - vm_compute. reflexivity.
Defined.

End IterationExact.

(** ** Further properties: crawl *)

Section DictUpdates.

Context {V : Type}.

Lemma dict_get_set_same (d : dict V) (k : string) (v : V) :
  dict_get (dict_set d k v) k = Ok v.
Proof.
  induction d as [|[k' v'] d IH]; simpl.
  - now rewrite String.eqb_refl.
  - destruct (String.eqb_spec k k') as [->|Hne]; simpl.
    + now rewrite String.eqb_refl.
    + destruct (String.eqb_spec k k'); [contradiction|exact IH].
Qed.

Lemma dict_get_set_other (d : dict V) (k k0 : string) (v : V) :
  k0 <> k -> dict_get (dict_set d k v) k0 = dict_get d k0.
Proof.
  intros Hne. induction d as [|[k' v'] d IH]; simpl.
  - destruct (String.eqb_spec k0 k); [contradiction|reflexivity].
  - destruct (String.eqb_spec k k') as [->|Hk]; simpl.
    + destruct (String.eqb_spec k0 k'); [contradiction|reflexivity].
    + destruct (String.eqb_spec k0 k'); [reflexivity|exact IH].
Qed.

Lemma keys_dict_set_iff (d : dict V) (k k0 : string) (v : V) :
  In k0 (keys (dict_set d k v)) <-> k0 = k \/ In k0 (keys d).
Proof.
  split; [apply keys_dict_set_incl|].
  destruct (in_dec string_dec k (keys d)) as [Hin|Hnotin].
  - rewrite keys_dict_set_present by exact Hin. intros [->|H]; assumption.
  - rewrite dict_set_absent by exact Hnotin. unfold keys.
    rewrite map_app, in_app_iff. simpl. intros [->|Hin]; auto.
Qed.

Lemma keys_dict_set_NoDup (d : dict V) (k : string) (v : V) :
  NoDup (keys d) -> NoDup (keys (dict_set d k v)).
Proof.
  intros Hnd. destruct (in_dec string_dec k (keys d)) as [Hin|Hnotin].
  - now rewrite keys_dict_set_present.
  - rewrite dict_set_absent by exact Hnotin. unfold keys in *.
    rewrite map_app. simpl.
    pose proof (Add_app k (map fst d) []) as Hadd.
    rewrite app_nil_r in Hadd.
    apply (NoDup_Add Hadd). split; assumption.
Qed.

Lemma entries_dict_set_forall (P : string * V -> Prop) (d : dict V)
    (k : string) (v : V) :
  Forall P d -> P (k, v) -> Forall P (dict_set d k v).
Proof.
  induction d as [|[k' v'] d IH]; simpl; intros Hall Hkv.
  - now constructor.
  - inversion Hall as [|? ? Hhead Htail]; subst.
    destruct (String.eqb_spec k k') as [->|Hne]; constructor; auto.
Qed.

End DictUpdates.

Lemma distinct_iff (l : list string) : distinct l = true <-> NoDup l.
Proof.
  split; [apply distinct_NoDup|].
  induction 1 as [|x l Hnotin Hnd IH]; simpl; [reflexivity|].
  rewrite IH, andb_true_r. apply negb_true_iff.
  destruct (set_mem x l) eqn:Hmem; [|reflexivity].
  apply set_mem_in in Hmem. contradiction.
Qed.

Lemma set_without_iff (s : pyset) (x y : string) :
  In y (set_without s x) <-> In y s /\ y <> x.
Proof.
  unfold set_without. rewrite filter_In, negb_true_iff.
  split; intros [Hin Hne]; (split; [exact Hin|]).
  - now apply String.eqb_neq.
  - now apply String.eqb_neq.
Qed.

Section CrawlFacts.

Variable findall : string -> list string.

Lemma read_pages_keys (listing : dict string) (pages : dict pyset)
    (k : string) :
  In k (keys (read_pages findall listing pages))
  <-> In k (keys pages)
      \/ (In k (keys listing) /\ endswith k ".html" = true).
Proof.
  revert pages.
  induction listing as [|[filename contents] listing IH]; intros pages;
    cbn [read_pages].
  - simpl. tauto.
  - change (keys ((filename, contents) :: listing))
      with (filename :: keys listing).
    destruct (endswith filename ".html") eqn:Hhtml; cbn [negb].
    + rewrite IH, keys_dict_set_iff. simpl. split.
      * intros [[->|Hin]|[Hin Hk]]; auto.
      * intros [Hin|[[<-|Hin] Hk]]; auto.
    + rewrite IH. simpl. split.
      * intros [Hin|[Hin Hk]]; auto.
      * intros [Hin|[[<-|Hin] Hk]]; auto. congruence.
Qed.

Lemma read_pages_NoDup (listing : dict string) (pages : dict pyset) :
  NoDup (keys pages) -> NoDup (keys (read_pages findall listing pages)).
Proof.
  revert pages.
  induction listing as [|[filename contents] listing IH]; intros pages Hnd;
    cbn [read_pages].
  - exact Hnd.
  - destruct (negb (endswith filename ".html")); [now apply IH|].
    apply IH. now apply keys_dict_set_NoDup.
Qed.

Lemma read_pages_forall (P : string * pyset -> Prop) (listing : dict string)
    (pages : dict pyset) :
  (forall filename contents, P (filename, own_links findall filename contents)) ->
  Forall P pages ->
  Forall P (read_pages findall listing pages).
Proof.
  intros Hown. revert pages.
  induction listing as [|[filename contents] listing IH]; intros pages Hall;
    cbn [read_pages].
  - exact Hall.
  - destruct (negb (endswith filename ".html")); [now apply IH|].
    apply IH. apply entries_dict_set_forall; [exact Hall|apply Hown].
Qed.

Lemma read_pages_get_other (listing : dict string) (pages : dict pyset)
    (k : string) :
  ~ In k (keys listing) ->
  dict_get (read_pages findall listing pages) k = dict_get pages k.
Proof.
  revert pages.
  induction listing as [|[filename contents] listing IH]; intros pages Hk;
    cbn [read_pages].
  - reflexivity.
  - simpl in Hk.
    destruct (negb (endswith filename ".html")); [apply IH; tauto|].
    rewrite IH by tauto. apply dict_get_set_other. intros ->. tauto.
Qed.

Lemma read_pages_get (listing : dict string) (pages : dict pyset)
    (k contents : string) :
  NoDup (keys listing) ->
  dict_get listing k = Ok contents ->
  endswith k ".html" = true ->
  dict_get (read_pages findall listing pages) k
  = Ok (own_links findall k contents).
Proof.
  revert pages.
  induction listing as [|[filename c] listing IH]; intros pages Hnd Hget Hk;
    cbn [read_pages]; [discriminate|].
  simpl in Hget, Hnd. inversion Hnd as [|? ? Hfresh Hrest]; subst.
  destruct (String.eqb_spec k filename) as [->|Hne].
  - injection Hget as ->. rewrite Hk. cbn [negb].
    rewrite read_pages_get_other by exact Hfresh.
    apply dict_get_set_same.
  - destruct (negb (endswith filename ".html")); now apply IH.
Qed.

Lemma keep_corpus_links_map (done todo : dict pyset) :
  NoDup (keys done ++ keys todo) ->
  keep_corpus_links (keys todo) (done ++ todo)
  = Ok (done ++ map (kept (keys done ++ keys todo)) todo).
Proof.
  revert done.
  induction todo as [|[filename links] todo IH]; intros done Hnd;
    cbn [keep_corpus_links keys map fst].
  - reflexivity.
  - assert (Hfresh : ~ In filename (keys done)).
    { apply NoDup_remove_2 in Hnd. intros Hin. apply Hnd.
      apply in_or_app. now left. }
    assert (Hget : dict_get (done ++ (filename, links) :: todo) filename
                   = Ok links).
    { clear - Hfresh. induction done as [|[k v] done IHd]; simpl.
      - now rewrite String.eqb_refl.
      - simpl in Hfresh.
        destruct (String.eqb_spec filename k) as [->|Hne]; [tauto|].
        apply IHd. tauto. }
    assert (Hset : forall v,
               dict_set (done ++ (filename, links) :: todo) filename v
               = done ++ (filename, v) :: todo).
    { clear - Hfresh. intros v. induction done as [|[k v'] done IHd]; simpl.
      - now rewrite String.eqb_refl.
      - simpl in Hfresh.
        destruct (String.eqb_spec filename k) as [->|Hne]; [tauto|].
        f_equal. apply IHd. tauto. }
    rewrite Hget. cbn [bind]. rewrite Hset.
    assert (Hkeys : keys (done ++ (filename, links) :: todo)
                    = keys done ++ filename :: keys todo)
      by (unfold keys; now rewrite map_app).
    rewrite Hkeys.
    change (done ++ (filename,
                     filter (fun link =>
                               set_mem link (keys done ++ filename :: keys todo))
                       links) :: todo)
      with (done ++ [kept (keys done ++ filename :: keys todo)
                       (filename, links)] ++ todo).
    rewrite app_assoc. unfold keys in IH. fold (@keys pyset) in IH.
    rewrite IH.
    + unfold keys. rewrite map_app, <- !app_assoc. reflexivity.
    + unfold keys in *. rewrite map_app, <- app_assoc. exact Hnd.
Qed.

(** What [crawl] returns: the entries of the first loop, each cut down to
    the links that are keys. *)
Lemma crawl_result (listing : dict string) :
  crawl findall listing
  = Ok (map (kept (keys (read_pages findall listing [])))
          (read_pages findall listing [])).
Proof.
  unfold crawl.
  exact (keep_corpus_links_map [] (read_pages findall listing [])
           (read_pages_NoDup listing [] (NoDup_nil _))).
Qed.

Lemma keys_kept (known : list string) (pages : dict pyset) :
  keys (map (kept known) pages) = keys pages.
Proof.
  unfold keys. rewrite map_map. reflexivity.
Qed.

Lemma dict_get_kept (known : list string) (pages : dict pyset) (k : string) :
  dict_get (map (kept known) pages) k
  = links <- dict_get pages k ;;
    Ok (filter (fun link => set_mem link known) links).
Proof.
  induction pages as [|[k' v] pages IH]; simpl; [reflexivity|].
  destruct (String.eqb k k'); [reflexivity|exact IH].
Qed.

End CrawlFacts.

Lemma no_keys_no_entries {V : Type} (d : dict V) :
  (forall k, ~ In k (keys d)) -> d = [].
Proof.
  destruct d as [|[k v] d]; [reflexivity|].
  intros Hnone. exfalso. apply (Hnone k). now left.
Qed.

Lemma iterate_pagerank_on_distinct_keys {R : Type} `{Number R}
    (corpus : dict pyset) (damping_factor : R) :
  NoDup (keys corpus) ->
  exists r, iterate_pagerank corpus damping_factor = Ok r.
Proof.
  intros Hnd. destruct corpus as [|entry corpus].
  - exists None. reflexivity.
  - unfold iterate_pagerank.
    rewrite initial_ranks_uniform; [|discriminate|exact Hnd].
    cbn [bind app].
    destruct (iterate_loop_ok (entry :: corpus) damping_factor 100
                (map (fun key => (key, div (of_nat 1)
                                         (of_nat (List.length (entry :: corpus)))))
                   (keys (entry :: corpus)))) as (r & Hr & _).
    + discriminate.
    + exact Hnd.
    + unfold keys. rewrite map_map. cbn [fst]. apply map_id.
    + now exists r.
Qed.

Section CrawlProperties.

Variable findall : string -> list string.

(** X14.  [crawl] raises no [KeyError]; the keys of the corpus it returns
    are distinct and are exactly the listed names that end in [.html]. *)
Theorem crawl_pages (listing : dict string) :
  exists corpus,
    crawl findall listing = Ok corpus
    /\ distinct (keys corpus) = true
    /\ forall k,
         In k (keys corpus)
         <-> In k (keys listing) /\ endswith k ".html" = true.
Proof.
  eexists. split; [apply crawl_result|]. rewrite keys_kept. split.
  - apply distinct_iff. apply read_pages_NoDup. constructor.
  - intros k. rewrite read_pages_keys. simpl. tauto.
Qed.

(** X15.  In the corpus [crawl] returns every link is the name of a page of
    the corpus, no page links to itself, and no link occurs twice in a
    page's links, whatever the files contain. *)
Theorem crawl_links_well_formed (listing : dict string) :
  exists corpus,
    crawl findall listing = Ok corpus
    /\ links_inside corpus = true
    /\ forallb (fun entry => negb (set_mem (fst entry) (snd entry))
                             && distinct (snd entry))
         corpus = true.
Proof.
  eexists. split; [apply crawl_result|].
  set (pages := read_pages findall listing []).
  assert (Hpages : Forall (fun entry : string * pyset =>
                             ~ In (fst entry) (snd entry)
                             /\ NoDup (snd entry)) pages).
  { apply read_pages_forall; [|constructor].
    intros filename contents. cbn [fst snd]. unfold own_links. split.
    - rewrite set_without_iff. tauto.
    - apply NoDup_filter. apply NoDup_nodup. }
  split.
  - unfold links_inside. rewrite keys_kept. apply forallb_forall.
    intros entry Hentry. apply in_map_iff in Hentry.
    destruct Hentry as (original & <- & _). cbn [kept snd].
    apply forallb_forall. intros link Hlink.
    apply filter_In in Hlink. tauto.
  - apply forallb_forall. intros entry Hentry. apply in_map_iff in Hentry.
    destruct Hentry as (original & <- & Horiginal). cbn [kept fst snd].
    rewrite Forall_forall in Hpages.
    destruct (Hpages original Horiginal) as [Hself Hnd].
    apply andb_true_iff. split.
    + apply negb_true_iff.
      destruct (set_mem (fst original) _) eqn:Hmem; [|reflexivity].
      apply set_mem_in, filter_In in Hmem. tauto.
    + apply distinct_iff. now apply NoDup_filter.
Qed.

(** X16.  For a file of the directory whose name ends in [.html] (the
    listed names being distinct), the links [crawl] records are exactly the
    names [re.findall] finds in its contents that are other than the file
    itself and are listed names ending in [.html]. *)
Theorem crawl_links_of_page (listing : dict string) (page contents : string) :
  distinct (keys listing) = true ->
  dict_get listing page = Ok contents ->
  endswith page ".html" = true ->
  exists corpus links,
    crawl findall listing = Ok corpus
    /\ dict_get corpus page = Ok links
    /\ forall link,
         In link links
         <-> In link (findall contents)
             /\ link <> page
             /\ In link (keys listing)
             /\ endswith link ".html" = true.
Proof.
  intros Hdistinct Hget Hhtml. apply distinct_iff in Hdistinct.
  eexists. eexists. split; [apply crawl_result|]. split.
  - rewrite dict_get_kept.
    rewrite (read_pages_get findall listing [] page contents Hdistinct Hget
               Hhtml).
    reflexivity.
  - intros link. rewrite filter_In, set_mem_in, read_pages_keys.
    unfold own_links. rewrite set_without_iff. unfold set_of.
    rewrite nodup_In. simpl. tauto.
Qed.

(** X17.  When the directory lists at least one name ending in [.html],
    the corpus [crawl] returns is a graph, so that both estimators run on
    it without an exception: [sample_pagerank], for a positive [n], returns
    for every page of the corpus the number of the walk's [n] turns that
    began at the page, divided by [n] (these numbers add up to [n]), and
    [iterate_pagerank] returns. *)
Theorem crawl_then_estimate {R : Type} `{Number R} (listing : dict string)
    (damping_factor : R) (n : nat) (g : generator R) :
  existsb (fun name => endswith name ".html") (keys listing) = true ->
  0 < n ->
  exists corpus page r,
    crawl findall listing = Ok corpus
    /\ graph corpus = true
    /\ random_choice (keys corpus) g = Ok (page, advance g)
    /\ List.length
         (visited corpus damping_factor (keys corpus) n
            (initial_walk corpus page (advance g))) = n
    /\ sample_pagerank corpus damping_factor n g
       = Ok (visit_frequencies
               (visited corpus damping_factor (keys corpus) n
                  (initial_walk corpus page (advance g)))
               n (keys corpus))
    /\ list_sum
         (map (count_occ string_dec
                 (visited corpus damping_factor (keys corpus) n
                    (initial_walk corpus page (advance g))))
            (keys corpus)) = n
    /\ iterate_pagerank corpus damping_factor = Ok r.
Proof.
  intros Hsome Hn.
  set (pages := read_pages findall listing []).
  set (corpus := map (kept (keys pages)) pages).
  assert (Hnd : NoDup (keys corpus)).
  { unfold corpus. rewrite keys_kept. apply read_pages_NoDup. constructor. }
  assert (Hne : corpus <> []).
  { apply existsb_exists in Hsome. destruct Hsome as (name & Hin & Hhtml).
    assert (Hkey : In name (keys corpus)).
    { unfold corpus. rewrite keys_kept. apply read_pages_keys. now right. }
    intros Hempty. rewrite Hempty in Hkey. destruct Hkey. }
  assert (Hclosed : closed corpus).
  { apply links_inside_closed. unfold links_inside, corpus.
    rewrite keys_kept. apply forallb_forall.
    intros entry Hentry. apply in_map_iff in Hentry.
    destruct Hentry as (original & <- & _). cbn [kept snd].
    apply forallb_forall. intros link Hlink.
    apply filter_In in Hlink. tauto. }
  destruct (sample_pagerank_visits corpus damping_factor n g Hne Hnd
              Hclosed Hn) as (page & _ & Hchoice & Hlen & Hrun & Hsum).
  destruct (iterate_pagerank_on_distinct_keys corpus damping_factor Hnd)
    as [r Hr].
  exists corpus, page, r. split; [apply crawl_result|].
  split; [|auto 6].
  unfold graph. rewrite !andb_true_iff. repeat split.
  - destruct corpus; [congruence|reflexivity].
  - now apply distinct_iff.
  - unfold links_inside, corpus. rewrite keys_kept. apply forallb_forall.
    intros entry Hentry. apply in_map_iff in Hentry.
    destruct Hentry as (original & <- & _). cbn [kept snd].
    apply forallb_forall. intros link Hlink.
    apply filter_In in Hlink. tauto.
Qed.

(** X18.  When the directory lists no name ending in [.html], [crawl]
    returns the empty corpus, on which [sample_pagerank] raises
    [IndexError]. *)
Theorem crawl_without_pages {R : Type} `{Number R} (listing : dict string)
    (damping_factor : R) (n : nat) (g : generator R) :
  existsb (fun name => endswith name ".html") (keys listing) = false ->
  crawl findall listing = Ok []
  /\ (corpus <- crawl findall listing ;;
      sample_pagerank corpus damping_factor n g) = Raise IndexError.
Proof.
  intros Hnone.
  assert (Hempty : read_pages findall listing [] = []).
  { apply no_keys_no_entries. intros k Hk.
    apply read_pages_keys in Hk. destruct Hk as [[]|[Hin Hhtml]].
    assert (Hsome : existsb (fun name => endswith name ".html")
                      (keys listing) = true)
      by (apply existsb_exists; now exists k).
    congruence. }
  assert (Hcrawl : crawl findall listing = Ok []).
  { rewrite crawl_result, Hempty. reflexivity. }
  split; [exact Hcrawl|]. rewrite Hcrawl. cbn [bind].
  unfold sample_pagerank, random_choice. cbn [keys map List.length].
  destruct (index_draws g (position g) mod 0); reflexivity.
Qed.

End CrawlProperties.

Lemma crawl_links_of_page_witness :
  distinct (keys example_listing) = true
  /\ dict_get example_listing "1.html" = Ok "2.html 1.html 3.html"
  /\ endswith "1.html" ".html" = true
  /\ crawl example_findall example_listing
     = Ok [("1.html", ["2.html"]); ("2.html", ["1.html"])]
  /\ exists corpus links,
       crawl example_findall example_listing = Ok corpus
       /\ dict_get corpus "1.html" = Ok links
       /\ forall link,
            In link links
            <-> In link (example_findall "2.html 1.html 3.html")
                /\ link <> "1.html"
                /\ In link (keys example_listing)
                /\ endswith link ".html" = true.
Proof.
  split; [reflexivity|]. split; [reflexivity|]. split; [reflexivity|].
  split; [reflexivity|].
  exact (crawl_links_of_page example_findall example_listing "1.html"
           "2.html 1.html 3.html" eq_refl eq_refl eq_refl).
Defined.

Lemma crawl_then_estimate_witness :
  existsb (fun name => endswith name ".html") (keys example_listing) = true
  /\ 0 < 4
  /\ exists corpus page r,
       crawl example_findall example_listing = Ok corpus
       /\ graph corpus = true
       /\ random_choice (keys corpus)
            (constant_generator 0.75%float (fun k => k))
          = Ok (page, advance (constant_generator 0.75%float (fun k => k)))
       /\ List.length
            (visited corpus 0.5%float (keys corpus) 4
               (initial_walk corpus page
                  (advance (constant_generator 0.75%float (fun k => k)))))
          = 4
       /\ sample_pagerank (R:=float) corpus 0.5%float 4
            (constant_generator 0.75%float (fun k => k))
          = Ok (visit_frequencies
                  (visited corpus 0.5%float (keys corpus) 4
                     (initial_walk corpus page
                        (advance
                           (constant_generator 0.75%float (fun k => k)))))
                  4 (keys corpus))
       /\ list_sum
            (map (count_occ string_dec
                    (visited corpus 0.5%float (keys corpus) 4
                       (initial_walk corpus page
                          (advance
                             (constant_generator 0.75%float
                                (fun k => k))))))
               (keys corpus)) = 4
       /\ iterate_pagerank corpus 0.5%float = Ok r.
Proof.
  split; [reflexivity|]. split; [lia|].
  exact (crawl_then_estimate example_findall (R:=float) example_listing
           0.5%float 4 (constant_generator 0.75%float (fun k => k))
           eq_refl ltac:(lia)).
Defined.

Lemma crawl_without_pages_witness :
  existsb (fun name => endswith name ".html") (keys [("notes.txt", "1.html")])
  = false
  /\ crawl example_findall [("notes.txt", "1.html")] = Ok []
  /\ (corpus <- crawl example_findall [("notes.txt", "1.html")] ;;
      sample_pagerank (R:=Q) corpus (1 # 2) 10
        (constant_generator (3 # 4)%Q (fun k => k))) = Raise IndexError.
Proof.
  split; [reflexivity|].
  exact (crawl_without_pages example_findall (R:=Q) [("notes.txt", "1.html")]
           (1 # 2) 10 (constant_generator (3 # 4)%Q (fun k => k)) eq_refl).
Defined.

(** ** Further properties: the mass of a pass of iterate_pagerank *)

Section Sums.

Local Open Scope Q_scope.

Lemma total_is_sum (l : list Q) (a : Q) :
  fold_left Qplus l a == a + sum_over (fun v => v) l.
Proof.
  revert a. induction l as [|v l IH]; intros a; simpl.
  - lra.
  - rewrite IH. lra.
Qed.

Lemma sum_over_app {A : Type} (f : A -> Q) (l1 l2 : list A) :
  sum_over f (l1 ++ l2) == sum_over f l1 + sum_over f l2.
Proof.
  induction l1 as [|x l1 IH]; simpl; [lra|]. rewrite IH. lra.
Qed.

Lemma sum_over_le {A : Type} (f g : A -> Q) (l : list A) :
  (forall x, In x l -> f x <= g x) -> sum_over f l <= sum_over g l.
Proof.
  induction l as [|x l IH]; intros Hle; simpl; [lra|].
  pose proof (Hle x (or_introl eq_refl)).
  pose proof (IH (fun y Hy => Hle y (or_intror Hy))). lra.
Qed.

Lemma sum_over_eq {A : Type} (f g : A -> Q) (l : list A) :
  (forall x, In x l -> f x == g x) -> sum_over f l == sum_over g l.
Proof.
  induction l as [|x l IH]; intros Heq; simpl; [lra|].
  pose proof (Heq x (or_introl eq_refl)).
  pose proof (IH (fun y Hy => Heq y (or_intror Hy))). lra.
Qed.

Lemma sum_over_plus {A : Type} (f g : A -> Q) (l : list A) :
  sum_over (fun x => f x + g x) l == sum_over f l + sum_over g l.
Proof.
  induction l as [|x l IH]; simpl; lra.
Qed.

Lemma sum_over_scale {A : Type} (c : Q) (f : A -> Q) (l : list A) :
  sum_over (fun x => c * f x) l == c * sum_over f l.
Proof.
  induction l as [|x l IH]; simpl; [ring|]. rewrite IH. ring.
Qed.

Lemma sum_over_const {A : Type} (c : Q) (l : list A) :
  sum_over (fun _ => c) l == inject_Z (Z.of_nat (List.length l)) * c.
Proof.
  induction l as [|x l IH]; cbn [sum_over List.length]; [ring|].
  rewrite IH, Nat2Z.inj_succ, <- Z.add_1_r, inject_Z_plus. ring.
Qed.

Lemma sum_over_swap {A B : Type} (f : A -> B -> Q) (la : list A)
    (lb : list B) :
  sum_over (fun a => sum_over (f a) lb) la
  == sum_over (fun b => sum_over (fun a => f a b) la) lb.
Proof.
  induction la as [|a la IH]; cbn [sum_over].
  - rewrite (sum_over_const 0 lb). ring.
  - rewrite IH, <- sum_over_plus. reflexivity.
Qed.

Lemma sum_over_indicator {A : Type} (test : A -> bool) (t : Q)
    (l : list A) :
  sum_over (fun x => if test x then t else 0) l
  == inject_Z (Z.of_nat (List.length (filter test l))) * t.
Proof.
  induction l as [|x l IH]; cbn [sum_over filter]; [simpl; ring|].
  rewrite IH. destruct (test x); cbn [List.length]; [|ring].
  rewrite Nat2Z.inj_succ, <- Z.add_1_r, inject_Z_plus. ring.
Qed.

Lemma sum_over_values (pp : dict Q) :
  NoDup (keys pp) ->
  sum_over (rank_of pp) (keys pp) == sum_over (fun v => v) (values pp).
Proof.
  induction pp as [|[k v] pp IH]; intros Hnd; cbn [keys values map sum_over].
  - reflexivity.
  - change (map fst pp) with (keys pp). change (map snd pp) with (values pp).
    cbn [keys map fst] in Hnd. inversion Hnd as [|? ? Hfresh Hrest]; subst.
    rewrite <- (IH Hrest).
    assert (Hhead : rank_of ((k, v) :: pp) k = v).
    { unfold rank_of. cbn [dict_get]. now rewrite String.eqb_refl. }
    cbn [fst snd]. rewrite Hhead.
    rewrite (sum_over_eq (rank_of ((k, v) :: pp)) (rank_of pp) (keys pp)).
    + reflexivity.
    + intros k' Hk'. unfold rank_of. cbn [dict_get].
      destruct (String.eqb_spec k' k) as [->|Hne]; [contradiction|].
      reflexivity.
Qed.

Lemma member_le_total (l : list Q) (v : Q) :
  Forall (fun x => 0 <= x) l -> In v l -> v <= sum_over (fun x => x) l.
Proof.
  induction l as [|x l IH]; intros Hall Hin; [destruct Hin|].
  inversion Hall as [|? ? Hx Hl]; subst. cbn [sum_over].
  assert (Hsum : 0 <= sum_over (fun x => x) l).
  { clear - Hl. induction Hl; simpl; lra. }
  destruct Hin as [->|Hin]; [lra|]. specialize (IH Hl Hin). lra.
Qed.

End Sums.

Section PassMass.

Local Open Scope Q_scope.

(** The inner loop adds up the shares of the pages it visits. *)
Lemma inbound_is_sum (corpus : dict pyset) (damping_factor : Q) (N : nat)
    (probability_page : dict Q) (cur_page : string) (ks : list string)
    (running r : Q) :
  inbound corpus damping_factor N probability_page cur_page ks running
  = Ok r ->
  r == running
       + sum_over (share corpus damping_factor probability_page cur_page) ks.
Proof.
  revert running.
  induction ks as [|key ks IH]; intros running; cbn [inbound sum_over].
  - intros [= <-]. lra.
  - unfold share at 1.
    destruct (String.eqb key cur_page).
    { intros Hrun. rewrite (IH _ Hrun). lra. }
    destruct (dict_get corpus key) as [links|e]; cbn [bind]; [|discriminate].
    destruct (set_mem cur_page links) eqn:Hmem; cbn [negb].
    2:{ intros Hrun. rewrite (IH _ Hrun).
        destruct (dict_get probability_page key); lra. }
    destruct (dict_get probability_page key) as [p|e];
      [|destruct (0 <? List.length links)%nat; discriminate].
    destruct links as [|l links]; [discriminate|].
    cbn [List.length Nat.ltb Nat.leb truediv bind].
    intros Hrun. rewrite (IH _ Hrun).
    cbn [add mul div of_nat Q_Number List.length]. ring.
Qed.

(** Over distinct pages, the shares a page hands out add up to at most
    [d] times its rank: it gives [d * PR/|L|] to at most [|L|] pages. *)
Lemma shares_of_a_page (corpus : dict pyset) (damping_factor : Q)
    (probability_page : dict Q) (key : string) (ks : list string) :
  0 <= damping_factor ->
  Forall (fun v => 0 <= v) (values probability_page) ->
  NoDup ks ->
  sum_over (fun cur_page =>
              share corpus damping_factor probability_page cur_page key) ks
  <= damping_factor * rank_of probability_page key.
Proof.
  intros Hd Hpp Hnd. unfold rank_of.
  assert (Hzero : forall c, 0 <= c ->
             sum_over (fun _ : string => 0) ks <= damping_factor * c).
  { intros c Hc. rewrite (sum_over_const 0 ks).
    pose proof (Qmult_le_0_compat _ _ Hd Hc). lra. }
  destruct (dict_get probability_page key) as [p|e] eqn:Hp.
  2:{ rewrite (sum_over_eq _ (fun _ => 0)).
      - apply Hzero. lra.
      - intros cur _. unfold share. rewrite Hp.
        destruct (String.eqb key cur); [reflexivity|].
        destruct (dict_get corpus key); reflexivity. }
  assert (Hp0 : 0 <= p).
  { rewrite Forall_forall in Hpp. apply Hpp.
    eapply dict_get_value_in. eassumption. }
  destruct (dict_get corpus key) as [links|e] eqn:Hlinks.
  2:{ rewrite (sum_over_eq _ (fun _ => 0)).
      - now apply Hzero.
      - intros cur _. unfold share. rewrite Hlinks.
        destruct (String.eqb key cur); reflexivity. }
  set (t := damping_factor * (p / inject_Z (Z.of_nat (List.length links)))).
  set (test := fun cur => negb (String.eqb key cur) && set_mem cur links).
  rewrite (sum_over_eq _ (fun cur => if test cur then t else 0)).
  2:{ intros cur _. unfold share, test. rewrite Hlinks, Hp.
      destruct (String.eqb key cur); cbn [negb andb]; reflexivity. }
  rewrite sum_over_indicator.
  assert (Hcount : (List.length (filter test ks) <= List.length links)%nat).
  { apply NoDup_incl_length; [now apply NoDup_filter|].
    intros cur Hcur. apply filter_In in Hcur. destruct Hcur as [_ Htest].
    unfold test in Htest. apply andb_true_iff in Htest.
    apply set_mem_in. tauto. }
  destruct (List.length links) as [|m] eqn:Hlen.
  - assert (Hnone : List.length (filter test ks) = 0%nat) by lia.
    rewrite Hnone. pose proof (Qmult_le_0_compat _ _ Hd Hp0).
    change (inject_Z (Z.of_nat 0)) with 0. lra.
  - assert (Hc : inject_Z (Z.of_nat (List.length (filter test ks)))
                 <= inject_Z (Z.of_nat (S m)))
      by (unfold Qle; simpl; lia).
    assert (Hpos : 0 < inject_Z (Z.of_nat (S m)))
      by (unfold Qlt; simpl; lia).
    assert (Ht : 0 <= t) by (apply product_nonneg; assumption).
    assert (Hfull : inject_Z (Z.of_nat (S m)) * t == damping_factor * p).
    { unfold t. field. lra. }
    rewrite <- Hfull. apply Qmult_le_compat_r; assumption.
Qed.

(** A pass that runs to its end stores, for each page it visits, the base
    [(1 - d)/N] plus the shares the page receives. *)
Lemma update_total (corpus : dict pyset) (damping_factor : Q) (N : nat)
    (probability_page : dict Q) (ks : list string)
    (new_prob_page completed : dict Q) :
  NoDup (keys new_prob_page ++ ks) ->
  update corpus damping_factor (S N) probability_page ks new_prob_page
  = Ok (Completed completed) ->
  sum_over (fun v => v) (values completed)
  == sum_over (fun v => v) (values new_prob_page)
     + sum_over
         (fun cur_page =>
            (1 - damping_factor) / inject_Z (Z.of_nat (S N))
            + sum_over (share corpus damping_factor probability_page cur_page)
                (keys corpus))
         ks.
Proof.
  revert new_prob_page.
  induction ks as [|cur_page ks IH]; intros acc Hnd; cbn [update sum_over].
  - intros [= <-]. lra.
  - unfold new_rank. cbn [truediv bind].
    destruct (inbound corpus damping_factor (S N) probability_page cur_page
                (keys corpus) (of_nat 0)) as [running|e] eqn:Hin;
      cbn [bind]; [|discriminate].
    destruct (dict_get probability_page cur_page) as [prev|e];
      cbn [bind]; [|discriminate].
    destruct (ltb _ tolerance); [discriminate|].
    assert (Hfresh : ~ In cur_page (keys acc)).
    { apply NoDup_remove_2 in Hnd. intros Hk. apply Hnd.
      apply in_or_app. now left. }
    rewrite (dict_set_absent acc cur_page _ Hfresh).
    intros Hrun. apply IH in Hrun.
    2:{ unfold keys in *. rewrite map_app, <- app_assoc. exact Hnd. }
    rewrite Hrun. unfold values. rewrite map_app, sum_over_app.
    cbn [map snd sum_over].
    apply inbound_is_sum in Hin. rewrite Hin.
    change (add ?x ?y) with (x + y).
    change (div (sub (of_nat 1) damping_factor) (of_nat (S N)))
      with ((1 - damping_factor) / inject_Z (Z.of_nat (S N))).
    change (of_nat 0) with 0. lra.
Qed.

(** The mass after a pass that runs to its end is at most
    [(1 - d) + d * (the mass before)]. *)
Lemma update_mass (corpus : dict pyset) (damping_factor : Q)
    (probability_page completed : dict Q) :
  0 <= damping_factor -> damping_factor <= 1 ->
  NoDup (keys corpus) ->
  keys probability_page = keys corpus ->
  Forall (fun v => 0 <= v) (values probability_page) ->
  update corpus damping_factor (List.length corpus) probability_page
    (keys corpus) [] = Ok (Completed completed) ->
  sum_over (fun v => v) (values completed)
  <= (1 - damping_factor)
     + damping_factor * sum_over (fun v => v) (values probability_page).
Proof.
  intros Hd Hd1 Hnd Hkeys Hpp Hup.
  destruct (List.length corpus) as [|N] eqn:HN.
  { apply length_zero_iff_nil in HN. subst corpus.
    cbn in Hup. injection Hup as <-. cbn [values map sum_over].
    destruct probability_page; [|discriminate]. cbn [values map sum_over].
    lra. }
  apply update_total in Hup; [|exact Hnd]. rewrite Hup.
  cbn [values map sum_over]. rewrite sum_over_plus, sum_over_const.
  assert (Hlen : List.length (keys corpus) = S N)
    by (unfold keys; now rewrite length_map).
  rewrite Hlen.
  assert (Hbase : inject_Z (Z.of_nat (S N))
                  * ((1 - damping_factor) / inject_Z (Z.of_nat (S N)))
                  == 1 - damping_factor).
  { field. intros Heq. unfold Qeq in Heq. simpl in Heq. lia. }
  rewrite Hbase, sum_over_swap.
  assert (Hshares :
            sum_over
              (fun key =>
                 sum_over
                   (fun cur_page =>
                      share corpus damping_factor probability_page cur_page
                        key)
                   (keys corpus))
              (keys corpus)
            <= sum_over
                 (fun key => damping_factor * rank_of probability_page key)
                 (keys corpus)).
  { apply sum_over_le. intros key _. now apply shares_of_a_page. }
  rewrite sum_over_scale in Hshares.
  assert (Hranks : sum_over (rank_of probability_page) (keys corpus)
                   == sum_over (fun v => v) (values probability_page)).
  { rewrite <- Hkeys. apply sum_over_values. now rewrite Hkeys. }
  rewrite Hranks in Hshares. lra.
Qed.

End PassMass.

Section ReturnedMass.

Local Open Scope Q_scope.

Lemma sum_over_map {A : Type} (f : A -> Q) (l : list A) :
  sum_over (fun v => v) (map f l) == sum_over f l.
Proof.
  induction l as [|x l IH]; simpl; [reflexivity|]. rewrite IH. reflexivity.
Qed.

Lemma iterate_loop_settled (corpus : dict pyset) (damping_factor : Q)
    (remaining : nat) (probability_page dist : dict Q) :
  0 <= damping_factor -> damping_factor <= 1 ->
  corpus <> [] ->
  NoDup (keys corpus) ->
  settled corpus damping_factor probability_page ->
  iterate_loop corpus damping_factor (List.length corpus) remaining
    probability_page = Ok (Some dist) ->
  settled corpus damping_factor dist.
Proof.
  intros Hd0 Hd1 Hne Hnd.
  assert (HN : List.length corpus <> 0%nat)
    by (destruct corpus; simpl; congruence).
  assert (Hbase : 0 <= (1 - damping_factor)
                       / inject_Z (Z.of_nat (List.length corpus))).
  { destruct (List.length corpus) as [|N]; [congruence|].
    apply quotient_nonneg. lra. }
  revert probability_page.
  induction remaining as [|remaining IH]; intros pp Hpp; cbn [iterate_loop].
  - discriminate.
  - destruct Hpp as (Hkeys & Hranks & Hmass).
    assert (Hnonneg : Forall (fun v => 0 <= v) (values pp)).
    { eapply Forall_impl; [|exact Hranks]. intros v Hv. cbv beta in Hv.
      eapply Qle_trans; eassumption. }
    destruct (update corpus damping_factor (List.length corpus) pp
                (keys corpus) []) as [[returned|completed]|e] eqn:Hup;
      cbn [bind]; [| |discriminate].
    + apply update_returns_previous in Hup. subst returned.
      intros [= <-]. repeat split; assumption.
    + apply IH. repeat split.
      * destruct (update_ok corpus damping_factor (List.length corpus) pp
                    (keys corpus) [] HN (incl_refl _) Hkeys Hnd)
          as [Hret|(completed' & Hrun & Hck)]; [congruence|].
        rewrite Hup in Hrun. injection Hrun as <-. exact Hck.
      * apply (update_at_least_base corpus damping_factor
                 (List.length corpus) pp (keys corpus) [] completed Hd0
                 Hnonneg); [constructor|exact Hup].
      * pose proof (update_mass corpus damping_factor pp completed Hd0 Hd1
                      Hnd Hkeys Hnonneg Hup) as Hpass.
        pose proof (Qmult_le_0_compat damping_factor
                      (1 - sum_over (fun v => v) (values pp)) Hd0
                      ltac:(lra)).
        lra.
Qed.

(** X19.  In exact arithmetic, for a damping factor in [[0,1]] and a
    corpus with distinct keys, the ranks [iterate_pagerank] returns sum to
    at most 1 and each of them lies in [[0,1]]: a pass of the exact
    recurrence never creates mass, it only loses the share of the pages
    that have no link into the corpus.  The bound on the sum is a property
    of the exact recurrence only: in binary64, on
    [{H: {L1, L2}, L1: {H}, L2: {H}}] with damping factor [0.7], the ranks
    returned add up, left to right, to [1.0000000000000002], and their
    exact sum as rationals is above 1 too. *)
#[warnings="-inexact-float"] Theorem iterate_pagerank_mass_at_most_one :
  (forall (corpus : dict pyset) (damping_factor : Q) (dist : dict Q),
      0 <= damping_factor -> damping_factor <= 1 ->
      distinct (keys corpus) = true ->
      iterate_pagerank corpus damping_factor = Ok (Some dist) ->
      total (values dist) <= 1
      /\ Forall (fun v => 0 <= v /\ v <= 1) (values dist))
  /\ exists dist : dict float,
       iterate_pagerank (R:=float) star_corpus 0.7%float = Ok (Some dist)
       /\ dist = [("H", 0.4696573408804034%float);
                  ("L1", 0.26517132955979839%float);
                  ("L2", 0.26517132955979839%float)]
       /\ total (values dist) = 1.0000000000000002%float
       /\ 1 < total (map float_to_Q (values dist)).
Proof.
  split;
    [|eexists; split; [vm_compute; reflexivity|];
      split; [reflexivity|]; split; vm_compute; reflexivity].
  intros corpus damping_factor dist Hd0 Hd1 Hdistinct Hrun.
  apply distinct_iff in Hdistinct.
  destruct corpus as [|entry corpus]; [discriminate|].
  unfold iterate_pagerank in Hrun.
  rewrite initial_ranks_uniform in Hrun; [|discriminate|exact Hdistinct].
  cbn [bind app] in Hrun.
  apply iterate_loop_settled in Hrun;
    [|exact Hd0|exact Hd1|discriminate|exact Hdistinct|].
  - destruct Hrun as (_ & Hranks & Hmass).
    assert (Hbase : 0 <= (1 - damping_factor)
                         / inject_Z (Z.of_nat (List.length (entry :: corpus))))
      by (apply quotient_nonneg; lra).
    assert (Hnonneg : Forall (fun v => 0 <= v) (values dist)).
    { eapply Forall_impl; [|exact Hranks]. intros v Hv. cbv beta in Hv.
      eapply Qle_trans; eassumption. }
    split.
    + unfold total. rewrite total_is_sum.
      change (of_nat 0) with 0. lra.
    + apply Forall_forall. intros v Hv. split.
      * rewrite Forall_forall in Hnonneg. now apply Hnonneg.
      * pose proof (member_le_total (values dist) v Hnonneg Hv). lra.
  - repeat split.
    + unfold keys. rewrite map_map. cbn [fst]. apply map_id.
    + apply Forall_forall. intros v Hv. unfold values in Hv.
      rewrite map_map in Hv. apply in_map_iff in Hv.
      destruct Hv as (key & <- & _). cbn [snd].
      change (div (of_nat 1) (of_nat (List.length (entry :: corpus))))
        with (1 / inject_Z (Z.of_nat (List.length (entry :: corpus)))).
      assert (Hpos : 0 < inject_Z (Z.of_nat (List.length (entry :: corpus))))
        by (unfold Qlt; simpl; lia).
      unfold Qdiv. apply Qmult_le_compat_r; [lra|].
      apply Qinv_le_0_compat. apply Qlt_le_weak. exact Hpos.
    + unfold values. rewrite map_map. cbn [snd].
      rewrite sum_over_map, sum_over_const.
      assert (Hlen : List.length (keys (entry :: corpus))
                     = List.length (entry :: corpus))
        by (unfold keys; apply length_map).
      rewrite Hlen.
      change (div (of_nat 1) (of_nat (List.length (entry :: corpus))))
        with (1 / inject_Z (Z.of_nat (List.length (entry :: corpus)))).
      assert (Hone : inject_Z (Z.of_nat (List.length (entry :: corpus)))
                     * (1 / inject_Z (Z.of_nat (List.length (entry :: corpus))))
                     == 1).
      { field. intros Heq. unfold Qeq in Heq. simpl in Heq. lia. }
      rewrite Hone. apply Qle_refl.
Qed.

Lemma iterate_pagerank_mass_at_most_one_witness :
  0 <= 1 # 2 /\ 1 # 2 <= 1
  /\ distinct (keys sink_corpus) = true
  /\ exists dist,
       iterate_pagerank sink_corpus (1 # 2) = Ok (Some dist)
       /\ total (values dist) == 7 # 8
       /\ total (values dist) <= 1
       /\ Forall (fun v => 0 <= v /\ v <= 1) (values dist).
Proof.
  split; [vm_compute; discriminate|]. split; [vm_compute; discriminate|].
  split; [reflexivity|].
  eexists. split; [vm_compute; reflexivity|]. split; [reflexivity|].
  refine (proj1 iterate_pagerank_mass_at_most_one sink_corpus (1 # 2)
            _ _ _ _ _).
  - vm_compute. discriminate.
  - vm_compute. discriminate.
  - reflexivity.
  - vm_compute. reflexivity.
Defined.

End ReturnedMass.

(** ** [endswith] is the suffix test *)

Lemma substring_whole (t : string) : substring 0 (String.length t) t = t.
Proof.
  induction t as [|c t IH]; simpl; [reflexivity|]. now rewrite IH.
Qed.

Lemma substring_after_prefix (p t : string) :
  substring (String.length p) (String.length t) (p ++ t)%string = t.
Proof.
  induction p as [|c p IH]; simpl; [apply substring_whole|exact IH].
Qed.

Lemma append_length (p t : string) :
  String.length (p ++ t)%string = String.length p + String.length t.
Proof.
  induction p as [|c p IH]; simpl; [reflexivity|]. now rewrite IH.
Qed.

Lemma substring_length_le (n m : nat) (s : string) :
  String.length (substring n m s) <= String.length s.
Proof.
  revert n m. induction s as [|c s IH]; intros n m.
  - destruct n, m; simpl; lia.
  - destruct n as [|n].
    + destruct m as [|m]; simpl; [lia|]. specialize (IH 0 m). lia.
    + simpl. specialize (IH n m). lia.
Qed.

Lemma substring_split (n : nat) (s : string) :
  n <= String.length s ->
  s = (substring 0 n s ++ substring n (String.length s - n) s)%string.
Proof.
  revert s. induction n as [|n IH]; intros s Hn.
  - rewrite Nat.sub_0_r, substring_whole.
    destruct s; reflexivity.
  - destruct s as [|c s]; simpl in Hn; [lia|].
    simpl. f_equal. apply IH. lia.
Qed.

(** [endswith s suffix] holds exactly when [s] is some string followed by
    [suffix]. *)
Lemma endswith_iff (s suffix : string) :
  endswith s suffix = true <-> exists p, s = (p ++ suffix)%string.
Proof.
  unfold endswith. rewrite String.eqb_eq. split.
  - intros Heq.
    assert (Hlen : String.length suffix <= String.length s).
    { rewrite <- Heq at 1. apply substring_length_le. }
    exists (substring 0 (String.length s - String.length suffix) s).
    pose proof (substring_split (String.length s - String.length suffix) s
                  ltac:(lia)) as Hsplit.
    replace (String.length s - (String.length s - String.length suffix))
      with (String.length suffix) in Hsplit by lia.
    rewrite Heq in Hsplit. exact Hsplit.
  - intros [p ->]. rewrite append_length.
    replace (String.length p + String.length suffix - String.length suffix)
      with (String.length p) by lia.
    apply substring_after_prefix.
Qed.
